(** * dropbox_uploader: path normalisation, strategy dispatch, chunked
      sessions and the bounded retry loop

    A shallow embedding of [src/dropbox_uploader/dropbox_uploader.py].

    - Python [str] values are lists of Unicode code points ([pystr]);
      [bytes] values are lists of [Byte.byte].
    - Integers are [Z] (Python integers are unbounded).
    - The Dropbox SDK client is an interface ([Backend]) over an abstract
      backend state; every SDK call either returns or raises.
    - The engine is written in a small state-and-exception monad whose
      state carries the uploader object, the backend state and a log of
      the observable events (backend calls, sleeps, loop iterations). *)

From Equations Require Import Equations.
From Stdlib Require Import List ZArith NArith Lia Bool Ascii String.
From Stdlib Require Import DecimalString.
Import ListNotations.

Set Implicit Arguments.
Local Open Scope Z_scope.

(* ===================================================================== *)
(** ** Python strings *)
(* ===================================================================== *)

Module PyStr.

(** A Unicode code point. *)
Definition codepoint := N.

(** A Python [str]. *)
Definition pystr := list codepoint.

(** A string literal of the source (all of them are ASCII, except for the
    console decorations, which are not modelled). *)
Definition lit (s : string) : pystr :=
  List.map N_of_ascii (list_ascii_of_string s).

(** [s.startswith(prefix)]. *)
Fixpoint startswith (s prefix : pystr) {struct prefix} : bool :=
  match prefix with
  | [] => true
  | p :: ps =>
      match s with
      | [] => false
      | c :: cs => N.eqb c p && startswith cs ps
      end
  end.

(** [sub in s]: [sub] occurs in [s] at some position. *)
Fixpoint contains (sub s : pystr) : bool :=
  startswith s sub ||
  match s with
  | [] => false
  | _ :: t => contains sub t
  end.

(** The scan of [s.replace(old, new)] for a non-empty [old]: occurrences
    are found left to right and do not overlap.  [skip] counts the
    characters of [s] still covered by the occurrence found last. *)
Fixpoint replace_scan (old new : pystr) (skip : nat) (s : pystr) : pystr :=
  match s with
  | [] => []
  | c :: t =>
      match skip with
      | S k => replace_scan old new k t
      | O =>
          if startswith s old
          then new ++ replace_scan old new (Nat.pred (List.length old)) t
          else c :: replace_scan old new 0 t
      end
  end.

(** [s.replace(old, new)].  With an empty [old], Python inserts [new]
    before every character and at the end. *)
Definition replace (old new s : pystr) : pystr :=
  match old with
  | [] => new ++ List.concat (List.map (fun c => c :: new) s)
  | _ :: _ => replace_scan old new 0 s
  end.

Definition slash : codepoint := 47%N.
Definition backslash : codepoint := 92%N.

End PyStr.
Import PyStr.

(* ===================================================================== *)
(** ** The path normaliser ([normalize_remote] in the specification) *)
(* ===================================================================== *)

Definition inspect {A : Type} (a : A) : {b : A | a = b} := exist _ a eq_refl.

(** The scan for ["//"] either consumes a pair of slashes and emits one,
    or copies one character. *)
Lemma replace_scan_dslash_step (a : codepoint) (t : pystr) :
  replace_scan (lit "//") (lit "/") 0 (a :: t) =
  if startswith (a :: t) (lit "//")
  then slash :: replace_scan (lit "//") (lit "/") 0 (List.tl t)
  else a :: replace_scan (lit "//") (lit "/") 0 t.
Proof.
  cbn [replace_scan].
  destruct (startswith (a :: t) (lit "//")) eqn:E; [ | reflexivity].
  destruct t as [|b t]; [ | reflexivity].
  cbn in E. rewrite andb_false_r in E. discriminate.
Qed.

(** One pass of [path.replace("//", "/")] removes at least one character
    when ["//"] occurs; this is what makes the [while] loop terminate. *)
Lemma replace_scan_dslash_length (n : nat) :
  forall s, (List.length s <= n)%nat ->
    (List.length (replace_scan (lit "//") (lit "/") 0 s) <= List.length s)%nat /\
    (contains (lit "//") s = true ->
     (List.length (replace_scan (lit "//") (lit "/") 0 s) < List.length s)%nat).
Proof.
  induction n as [|n IH]; intros s Hn.
  - destruct s; simpl in *; [split; [lia | discriminate] | lia].
  - destruct s as [|a t]; [simpl; split; [lia | discriminate] | ].
    rewrite replace_scan_dslash_step. cbn [contains].
    cbn [List.length] in Hn.
    destruct (startswith (a :: t) (lit "//")) eqn:E.
    + destruct t as [|b t]; cbn [List.tl List.length] in *.
      * destruct (IH [] ltac:(simpl; lia)) as [Hle _]. simpl in *. lia.
      * destruct (IH t ltac:(lia)) as [Hle _]. lia.
    + destruct (IH t ltac:(lia)) as [Hle Hlt]. cbn [List.length orb].
      split; [lia | intros Hc; specialize (Hlt Hc); lia].
Qed.

Lemma replace_dslash_shorter (path : pystr) :
  contains (lit "//") path = true ->
  (List.length (replace (lit "//") (lit "/") path) < List.length path)%nat.
Proof.
  intros H. exact (proj2 (replace_scan_dslash_length path (le_n _)) H).
Qed.

(** The loop [while "//" in path: path = path.replace("//", "/")]. *)
Equations? collapse_slashes (path : pystr) : pystr by wf (List.length path) lt :=
  collapse_slashes path with inspect (contains (lit "//") path) := {
    | exist _ true _ => collapse_slashes (replace (lit "//") (lit "/") path);
    | exist _ false _ => path }.
Proof. apply replace_dslash_shorter. assumption. Qed.

(** [DropboxUploader._normalize_dropbox_path]. *)
Definition _normalize_dropbox_path (path : pystr) : pystr :=
  (* if not path.startswith("/"): path = "/" + path *)
  let path := if negb (startswith path (lit "/")) then lit "/" ++ path else path in
  (* path = path.replace("\\", "/") *)
  let path := replace (lit "\") (lit "/") path in
  (* while "//" in path: path = path.replace("//", "/") *)
  collapse_slashes path.

(* ===================================================================== *)
(** ** Exceptions, SDK values and the backend interface *)
(* ===================================================================== *)

(** A Python [bytes] value. *)
Definition bytes := list Byte.byte.

(** The exceptions that reach the engine.  Each carries [str(e)]; an
    [ApiError] also carries [str(e.error)] (the SDK sets [error] on every
    [ApiError]).  [OtherException] stands for every other subclass of
    [Exception] (an [OSError] from [open], a transport error of the HTTP
    library, ...). *)
Inductive PyExn : Type :=
  | AuthError (str_e : pystr)
  | ApiError (str_e : pystr) (str_error : pystr)
  | ConnectionError (str_e : pystr)
  | TimeoutError (str_e : pystr)
  | OtherException (str_e : pystr)
  | DropboxUploaderError (msg : pystr)
  | AuthenticationError (msg : pystr)
  | FileNotFoundError (msg : pystr)
  | UploadError (msg : pystr).

(** [str(e)]. *)
Definition exn_str (e : PyExn) : pystr :=
  match e with
  | AuthError s | ApiError s _ | ConnectionError s | TimeoutError s
  | OtherException s | DropboxUploaderError s | AuthenticationError s
  | FileNotFoundError s | UploadError s => s
  end.

Inductive WriteMode : Type := overwrite_mode | add_mode.

Record FullAccount := { display_name : pystr }.
Record FileMetadata := { path_display : pystr }.
Record UploadSessionStartResult := { session_id : pystr }.
Record UploadSessionCursor := { cursor_session_id : pystr; offset : Z }.
Record CommitInfo := { commit_path : pystr; commit_mode : WriteMode }.

(** What a call of the SDK does: it returns a value or raises. *)
Inductive Reply (A : Type) : Type :=
  | Returns (a : A)
  | Raises (e : PyExn).
Arguments Returns {A} a.
Arguments Raises {A} e.

(** The five operations of [dropbox.Dropbox] the engine calls, over a
    backend state [W]. *)
Record Backend (W : Type) : Type := {
  users_get_current_account : W -> Reply FullAccount * W;
  files_upload : bytes -> pystr -> WriteMode -> W -> Reply FileMetadata * W;
  files_upload_session_start : bytes -> W -> Reply UploadSessionStartResult * W;
  files_upload_session_append_v2 :
    bytes -> UploadSessionCursor -> W -> Reply unit * W;
  files_upload_session_finish :
    bytes -> UploadSessionCursor -> CommitInfo -> W -> Reply FileMetadata * W
}.

(** A backend call with its arguments, as it is observed. *)
Inductive Call : Type :=
  | GetCurrentAccount
  | FilesUpload (data : bytes) (path : pystr) (mode : WriteMode)
  | SessionStart (data : bytes)
  | SessionAppend (data : bytes) (cursor : UploadSessionCursor)
  | SessionFinish (data : bytes) (cursor : UploadSessionCursor) (commit : CommitInfo).

(** The observable events of a run, in the order they happen: a backend
    call, [time.sleep(seconds)], and the start of iteration [attempt] of
    the retry loop. *)
Inductive Event : Type :=
  | Called (c : Call)
  | Slept (seconds : Z)
  | Attempt (attempt : Z).

(* ===================================================================== *)
(** ** The host: Unicode tables and the local file system *)
(* ===================================================================== *)

(** What a resolved local path designates.  [st_size] is what [stat]
    reports and [content] is what reading the file yields; they are
    separate observations of the file. *)
Inductive Node : Type :=
  | Absent
  | NotAFile
  | RegularFile (st_size : Z) (content : bytes).

Record Host : Type := {
  isalpha : codepoint -> bool;      (* [c.isalpha()] of a one-character string *)
  upper : codepoint -> pystr;       (* [c.upper()] of a one-character string *)
  lower : pystr -> pystr;           (* [s.lower()] *)
  path_resolve : pystr -> pystr;    (* [Path(s).resolve()] *)
  path_name : pystr -> pystr;       (* [Path.name] *)
  node : pystr -> Node
}.

Definition path_exists (n : Node) : bool :=
  match n with Absent => false | _ => true end.

Definition path_is_file (n : Node) : bool :=
  match n with RegularFile _ _ => true | _ => false end.

(** [file_path.stat().st_size]. *)
Definition stat_st_size (n : Node) : Z :=
  match n with RegularFile st_size _ => st_size | _ => 0 end.

(** An open binary file: the bytes not read yet and [f.tell()]. *)
Record FileObj := { unread : bytes; tell : Z }.

(** [f.read(n)] for [n >= 0]: at most [n] bytes, fewer at the end. *)
Definition read (n : Z) (f : FileObj) : bytes * FileObj :=
  let data := List.firstn (Z.to_nat n) (unread f) in
  (data, {| unread := List.skipn (Z.to_nat n) (unread f);
            tell := tell f + Z.of_nat (List.length data) |}).

(** [f.read()]: everything that is left. *)
Definition read_all (f : FileObj) : bytes * FileObj :=
  (unread f, {| unread := []; tell := tell f + Z.of_nat (List.length (unread f)) |}).

(* ===================================================================== *)
(** ** Constants *)
(* ===================================================================== *)

Definition CHUNK_SIZE : Z := 4 * 1024 * 1024.
Definition MAX_RETRIES : Z := 3.
Definition RETRY_DELAY : Z := 5.

(** [range(a, b)]. *)
Fixpoint range_from (a : Z) (n : nat) : list Z :=
  match n with
  | O => []
  | S k => a :: range_from (a + 1) k
  end.

Definition range (a b : Z) : list Z := range_from a (Z.to_nat (b - a)).

(** [str(n)] of an integer. *)
Definition str_int (n : Z) : pystr := lit (NilZero.string_of_int (Z.to_int n)).

(** An [Optional[str]] in a boolean context: [None] and [""] are false.
    [truthy o] is the string when [o] is true. *)
Definition truthy (o : option pystr) : option pystr :=
  match o with
  | Some (c :: s) => Some (c :: s)
  | _ => None
  end.

(** [a or b] on [Optional[str]]. *)
Definition py_or (a b : option pystr) : option pystr :=
  match truthy a with
  | Some _ => a
  | None => b
  end.

(* ===================================================================== *)
(** ** The uploader object *)
(* ===================================================================== *)

(** A constructed [dropbox.Dropbox] client. *)
Inductive Client : Type :=
  | Dropbox_refresh (oauth2_refresh_token app_key app_secret : pystr)
  | Dropbox_token (access_token : pystr).

Record Uploader : Type := {
  _explicit_access_token : option pystr;
  _env_access_token : option pystr;
  _app_key : option pystr;
  _app_secret : option pystr;
  _refresh_token : option pystr;
  _client : option Client
}.

Definition with_client (u : Uploader) (c : option Client) : Uploader :=
  {| _explicit_access_token := _explicit_access_token u;
     _env_access_token := _env_access_token u;
     _app_key := _app_key u;
     _app_secret := _app_secret u;
     _refresh_token := _refresh_token u;
     _client := c |}.

(* ===================================================================== *)
(** ** The engine monad: state, exceptions and fuel *)
(* ===================================================================== *)

Section Engine.

Variable W : Type.

(** The state a run threads: the uploader object ([self]), the backend
    and the events so far (oldest first). *)
Record State : Type := {
  self : Uploader;
  world : W;
  log : list Event
}.

(** How a computation ends: it returns, it raises, or the fuel of a
    [while] loop ran out. *)
Inductive Outcome (A : Type) : Type :=
  | Ret (a : A) (st : State)
  | Raise (e : PyExn) (st : State)
  | OutOfFuel (st : State).
Arguments Ret {A} a st.
Arguments Raise {A} e st.
Arguments OutOfFuel {A} st.

Definition Eng (A : Type) : Type := State -> Outcome A.

Definition final_state {A : Type} (o : Outcome A) : State :=
  match o with
  | Ret _ st | Raise _ st | OutOfFuel st => st
  end.

Definition ret {A : Type} (a : A) : Eng A := fun st => Ret a st.

Definition raise {A : Type} (e : PyExn) : Eng A := fun st => Raise e st.

Definition bind {A B : Type} (m : Eng A) (k : A -> Eng B) : Eng B :=
  fun st =>
    match m st with
    | Ret a st' => k a st'
    | Raise e st' => Raise e st'
    | OutOfFuel st' => OutOfFuel st'
    end.

(** [try: m  except Exception as e: h e]. *)
Definition try_except {A : Type} (m : Eng A) (h : PyExn -> Eng A) : Eng A :=
  fun st =>
    match m st with
    | Raise e st' => h e st'
    | o => o
    end.

Definition log_event (ev : Event) (st : State) : State :=
  {| self := self st; world := world st; log := log st ++ [ev] |}.

Definition emit (ev : Event) : Eng unit := fun st => Ret tt (log_event ev st).

(** One call of the SDK client: it is observed, the backend moves on,
    and the reply is returned or raised. *)
Definition call {A : Type} (c : Call) (op : W -> Reply A * W) : Eng A :=
  fun st =>
    let (reply, w) := op (world st) in
    let st' := {| self := self st; world := w; log := log st ++ [Called c] |} in
    match reply with
    | Returns a => Ret a st'
    | Raises e => Raise e st'
    end.

(** [time.sleep(seconds)]. *)
Definition sleep (seconds : Z) : Eng unit := emit (Slept seconds).

Definition set_client (c : Client) : Eng unit :=
  fun st => Ret tt {| self := with_client (self st) (Some c);
                      world := world st; log := log st |}.

End Engine.

Arguments Ret {W A} a st.
Arguments Raise {W A} e st.
Arguments OutOfFuel {W A} st.
Arguments ret {W A} a _.
Arguments raise {W A} e _.
Arguments emit {W} ev _.
Arguments sleep {W} seconds _.
Arguments set_client {W} c _.

Declare Scope eng_scope.
Delimit Scope eng_scope with eng.
Notation "x <- m ;; k" := (bind m (fun x => k))
  (at level 61, m at next level, right associativity) : eng_scope.
Notation "m ;; k" := (bind m (fun _ => k))
  (at level 61, right associativity) : eng_scope.
Local Open Scope eng_scope.

(* ===================================================================== *)
(** ** DropboxUploader *)
(* ===================================================================== *)

Section Uploader.

Variable W : Type.
Variable backend : Backend W.
Variable host : Host.

(** [DropboxUploader._verify_connection]. *)
Definition _verify_connection : Eng W unit :=
  try_except
    (_ <- call GetCurrentAccount (users_get_current_account backend) ;;
     ret tt)
    (fun e =>
       match e with
       | AuthError _ =>
           raise (AuthenticationError (lit "Invalid Dropbox credentials: " ++ exn_str e))
       | _ =>
           raise (DropboxUploaderError (lit "Failed to connect to Dropbox: " ++ exn_str e))
       end).

Definition no_credentials_message : pystr :=
  lit "No Dropbox credentials provided." ++ [10%N] ++
  lit "Preferred: set DROPBOX_APP_KEY, DROPBOX_APP_SECRET, and DROPBOX_REFRESH_TOKEN." ++ [10%N] ++
  lit "Fallback: set DROPBOX_ACCESS_TOKEN or pass --token.".

(** The [client] property: the client is created on first use and the
    connection verified; [self._client] is assigned before the
    verification runs. *)
Definition client : Eng W unit :=
  fun st =>
    let u := self st in
    match _client u with
    | Some _ => Ret tt st
    | None =>
        match truthy (_refresh_token u), truthy (_app_key u), truthy (_app_secret u) with
        | Some r, Some k, Some s =>
            (* Preferred: refresh-token-based auth if all pieces are present *)
            (set_client (Dropbox_refresh r k s) ;; _verify_connection) st
        | _, _, _ =>
            (* Legacy: fall back to access token *)
            let access_token := py_or (_explicit_access_token u) (_env_access_token u) in
            match truthy access_token with
            | None => Raise (AuthenticationError no_credentials_message) st
            | Some t => (set_client (Dropbox_token t) ;; _verify_connection) st
            end
        end
    end.

(** [open(file_path, "rb")]: fails with an [OSError] unless the path is a
    regular file. *)
Definition open_rb (file_path : pystr) : Eng W FileObj :=
  match node host file_path with
  | RegularFile _ content => ret {| unread := content; tell := 0 |}
  | _ => raise (OtherException (lit "[Errno] " ++ file_path))
  end.

Definition write_mode (overwrite : bool) : WriteMode :=
  if overwrite then overwrite_mode else add_mode.

(** [DropboxUploader._upload_small_file]. *)
Definition _upload_small_file (file_path dropbox_path : pystr) (overwrite : bool)
  : Eng W FileMetadata :=
  let mode := write_mode overwrite in
  f <- open_rb file_path ;;
  client ;;
  let (data, _) := read_all f in
  call (FilesUpload data dropbox_path mode) (files_upload backend data dropbox_path mode).

(** The [while f.tell() < file_size] loop of [_upload_large_file].  It
    yields [Some metadata] when the loop returns from its final chunk and
    [None] when the loop condition fails.  One unit of fuel pays for one
    iteration. *)
Fixpoint upload_chunks (fuel : nat) (f : FileObj) (cursor : UploadSessionCursor)
    (commit : CommitInfo) (file_size : Z) : Eng W (option FileMetadata) :=
  if tell f <? file_size then
    match fuel with
    | O => fun st => OutOfFuel st
    | S fuel' =>
        let remaining := file_size - tell f in
        if remaining <=? CHUNK_SIZE then
          (* Final chunk *)
          client ;;
          let (data, _) := read remaining f in
          metadata <- call (SessionFinish data cursor commit)
                           (files_upload_session_finish backend data cursor commit) ;;
          ret (Some metadata)
        else
          (* Intermediate chunk *)
          client ;;
          let (data, f') := read CHUNK_SIZE f in
          call (SessionAppend data cursor)
               (files_upload_session_append_v2 backend data cursor) ;;
          let cursor' := {| cursor_session_id := cursor_session_id cursor;
                            offset := tell f' |} in
          upload_chunks fuel' f' cursor' commit file_size
    end
  else ret None.

(** [DropboxUploader._upload_large_file]. *)
Definition _upload_large_file (fuel : nat) (file_path dropbox_path : pystr)
    (file_size : Z) (overwrite : bool) : Eng W FileMetadata :=
  let mode := write_mode overwrite in
  f <- open_rb file_path ;;
  (* Start upload session *)
  client ;;
  let (data, f) := read CHUNK_SIZE f in
  session_start <- call (SessionStart data) (files_upload_session_start backend data) ;;
  let cursor := {| cursor_session_id := session_id session_start; offset := tell f |} in
  let commit := {| commit_path := dropbox_path; commit_mode := mode |} in
  (* Upload chunks *)
  r <- upload_chunks fuel f cursor commit file_size ;;
  match r with
  | Some metadata => ret metadata
  | None => raise (UploadError (lit "Unexpected end of file during chunked upload"))
  end.

(** [DropboxUploader._resolve_local_path]. *)
Definition _resolve_local_path (local_path : pystr) : pystr :=
  let path_str := local_path in
  (* Git Bash absolute paths: /c/Users/... -> C:/Users/... *)
  let path_str :=
    match path_str with
    | c0 :: drive_letter :: c2 :: rest =>
        if N.eqb c0 slash && N.eqb c2 slash then
          if isalpha host drive_letter
          then upper host drive_letter ++ lit ":" ++ c2 :: rest
          else path_str
        else path_str
    | _ => path_str
    end in
  (* /cygdrive/c/... (Cygwin/MSYS2) *)
  let path_str :=
    if startswith path_str (lit "/cygdrive/") && (12 <=? Z.of_nat (List.length path_str)) then
      match List.nth_error path_str 10 with
      | Some drive_letter =>
          if isalpha host drive_letter
          then upper host drive_letter ++ lit ":" ++ List.skipn 11 path_str
          else path_str
      | None => path_str
      end
    else path_str in
  path_resolve host path_str.

(** The two upload strategies. *)
Inductive Strategy : Type := SmallFile | LargeFile.

(** [if file_size <= 150 * 1024 * 1024:  # 150 MB threshold]. *)
Definition choose_strategy (file_size : Z) : Strategy :=
  if file_size <=? 150 * 1024 * 1024 then SmallFile else LargeFile.

(** The body of the [try] block of the retry loop. *)
Definition attempt_body (fuel : nat) (file_path dropbox_path : pystr)
    (file_size : Z) (overwrite : bool) : Eng W pystr :=
  metadata <-
    match choose_strategy file_size with
    | SmallFile => _upload_small_file file_path dropbox_path overwrite
    | LargeFile => _upload_large_file fuel file_path dropbox_path file_size overwrite
    end ;;
  ret (path_display metadata).

(** ["path/conflict" in error_msg.lower()]. *)
Definition is_path_conflict (error_msg : pystr) : bool :=
  contains (lit "path/conflict") (lower host error_msg).

(** ["insufficient_space" in error_msg.lower()]. *)
Definition is_insufficient_space (error_msg : pystr) : bool :=
  contains (lit "insufficient_space") (lower host error_msg).

(** The [except] clauses of the retry loop, for the exception [e] raised
    in iteration [attempt].  Returning means that the loop goes on to its
    next iteration; the value returned is the new [last_error]. *)
Definition on_failure (dropbox_path : pystr) (overwrite : bool) (attempt : Z)
    (e : PyExn) : Eng W PyExn :=
  match e with
  | AuthError _ =>
      raise (AuthenticationError (lit "Authentication failed: " ++ exn_str e))
  | ApiError _ str_error =>
      let error_msg := str_error in
      if is_path_conflict error_msg then
        if overwrite then ret e
        else raise (UploadError (lit "File already exists at " ++ dropbox_path))
      else if is_insufficient_space error_msg then
        raise (UploadError (lit "Insufficient space in Dropbox account"))
      else if attempt <? MAX_RETRIES then
        sleep RETRY_DELAY ;; ret e
      else
        raise (UploadError (lit "Upload failed after " ++ str_int MAX_RETRIES ++
                            lit " attempts: " ++ error_msg))
  | ConnectionError _ | TimeoutError _ =>
      if attempt <? MAX_RETRIES then
        sleep RETRY_DELAY ;; ret e
      else
        raise (UploadError (lit "Connection failed after " ++ str_int MAX_RETRIES ++
                            lit " attempts: " ++ exn_str e))
  | _ =>
      if attempt <? MAX_RETRIES then
        sleep RETRY_DELAY ;; ret e
      else
        raise (UploadError (lit "Upload failed: " ++ exn_str e))
  end.

(** [str(last_error)]. *)
Definition str_last_error (last_error : option PyExn) : pystr :=
  match last_error with
  | Some e => exn_str e
  | None => lit "None"
  end.

(** The retry loop [for attempt in range(1, MAX_RETRIES + 1)] over the
    iterations still to run, and the [raise] that follows it. *)
Fixpoint retry_loop (fuel : nat) (file_path dropbox_path : pystr) (file_size : Z)
    (overwrite : bool) (attempts : list Z) (last_error : option PyExn) : Eng W pystr :=
  match attempts with
  | [] =>
      raise (UploadError (lit "Upload failed after " ++ str_int MAX_RETRIES ++
                          lit " attempts: " ++ str_last_error last_error))
  | attempt :: rest =>
      emit (Attempt attempt) ;;
      r <- try_except
             (p <- attempt_body fuel file_path dropbox_path file_size overwrite ;;
              ret (inl p))
             (fun e =>
                last_error' <- on_failure dropbox_path overwrite attempt e ;;
                ret (inr last_error')) ;;
      match r with
      | inl p => ret p
      | inr last_error' =>
          retry_loop fuel file_path dropbox_path file_size overwrite rest (Some last_error')
      end
  end.

(** [dest_filename = filename or file_path.name] and
    [dropbox_path = self._normalize_dropbox_path(f"{dropbox_folder}/{dest_filename}")]. *)
Definition canonical_remote_path (dropbox_folder : pystr) (filename : option pystr)
    (file_path : pystr) : pystr :=
  let dest_filename :=
    match truthy filename with
    | Some n => n
    | None => path_name host file_path
    end in
  _normalize_dropbox_path (dropbox_folder ++ lit "/" ++ dest_filename).

(** [DropboxUploader.upload]. *)
Definition upload (fuel : nat) (local_path dropbox_folder : pystr)
    (filename : option pystr) (overwrite : bool) : Eng W pystr :=
  let file_path := _resolve_local_path local_path in
  (* Validate file exists *)
  if negb (path_exists (node host file_path)) then
    raise (FileNotFoundError (lit "File not found: " ++ file_path))
  else if negb (path_is_file (node host file_path)) then
    raise (FileNotFoundError (lit "Path is not a file: " ++ file_path))
  else
    (* Determine destination path *)
    let dropbox_path := canonical_remote_path dropbox_folder filename file_path in
    let file_size := stat_st_size (node host file_path) in
    (* Retry loop *)
    retry_loop fuel file_path dropbox_path file_size overwrite
               (range 1 (MAX_RETRIES + 1)) None.

End Uploader.

Arguments upload {W} backend host fuel local_path dropbox_folder filename overwrite _.
Arguments retry_loop {W} backend host fuel file_path dropbox_path file_size overwrite
  attempts last_error _.
Arguments attempt_body {W} backend host fuel file_path dropbox_path file_size overwrite _.
Arguments on_failure {W} host dropbox_path overwrite attempt e _.
Arguments _upload_small_file {W} backend host file_path dropbox_path overwrite _.
Arguments _upload_large_file {W} backend host fuel file_path dropbox_path file_size
  overwrite _.
Arguments upload_chunks {W} backend fuel f cursor commit file_size _.
Arguments client {W} backend _.
Arguments _verify_connection {W} backend _.
Arguments open_rb {W} host file_path _.

(* ===================================================================== *)
(** ** Concrete hosts and backends *)
(* ===================================================================== *)

Module Scenario.

(** ASCII case tables; paths are POSIX paths that resolve to themselves. *)
Definition ascii_isalpha (c : codepoint) : bool :=
  ((65 <=? c) && (c <=? 90) || (97 <=? c) && (c <=? 122))%N.

Definition ascii_upper (c : codepoint) : pystr :=
  [if ((97 <=? c) && (c <=? 122))%N then (c - 32)%N else c].

Definition ascii_lower (s : pystr) : pystr :=
  List.map (fun c => if ((65 <=? c) && (c <=? 90))%N then (c + 32)%N else c) s.

Fixpoint posix_name (s : pystr) : pystr :=
  match s with
  | [] => []
  | c :: t => if contains (lit "/") s then posix_name t else s
  end.

Definition posix_host (fs : pystr -> Node) : Host :=
  {| isalpha := ascii_isalpha; upper := ascii_upper; lower := ascii_lower;
     path_resolve := fun p => p; path_name := posix_name; node := fs |}.

(** A file system with one regular file. *)
Definition one_file (p : pystr) (st_size : Z) (content : bytes) : pystr -> Node :=
  fun q => if list_eq_dec N.eq_dec p q then RegularFile st_size content else Absent.

(** A backend that counts the calls it receives; [script n] says whether
    call number [n] raises.  A call that is served echoes its request. *)
Definition answer {A : Type} (script : nat -> option PyExn) (a : A) (n : nat)
  : Reply A * nat :=
  (match script n with Some e => Raises e | None => Returns a end, S n).

Definition scripted (script : nat -> option PyExn) : Backend nat :=
  {| users_get_current_account :=
       answer script {| display_name := lit "Test User" |};
     files_upload := fun _ path _ => answer script {| path_display := path |};
     files_upload_session_start := fun _ => answer script {| session_id := lit "sid" |};
     files_upload_session_append_v2 := fun _ _ => answer script tt;
     files_upload_session_finish :=
       fun _ _ commit => answer script {| path_display := commit_path commit |} |}.

(** An uploader built with an access token; no client yet. *)
Definition token_uploader : Uploader :=
  {| _explicit_access_token := Some (lit "token"); _env_access_token := None;
     _app_key := None; _app_secret := None; _refresh_token := None;
     _client := None |}.

Definition fresh : State nat := {| self := token_uploader; world := O; log := [] |}.

Definition report : pystr := lit "/tmp/report.md".
Definition report_content : bytes := [Byte.x23; Byte.x20; Byte.x54].

Definition report_host : Host := posix_host (one_file report 3 report_content).

(** *** Failures and scripts.  Calls are numbered from 0; call 0 is the
    identity check that the first use of the client makes. *)

Definition reset : PyExn := ConnectionError (lit "connection reset").
Definition busy : PyExn :=
  ApiError (lit "ApiError(too_many_write_operations)") (lit "too_many_write_operations").
Definition conflict : PyExn :=
  ApiError (lit "ApiError(path/conflict/file)") (lit "path/conflict/file").
Definition bad_token : PyExn := AuthError (lit "invalid_access_token").

Definition flaky (n : nat) : option PyExn :=
  match n with 1%nat => Some reset | 2%nat => Some busy | _ => None end.

Definition down (n : nat) : option PyExn :=
  match n with O => None | _ => Some reset end.

Definition conflict_second (n : nat) : option PyExn :=
  match n with 1%nat => Some reset | 2%nat => Some conflict | _ => None end.

Definition conflict_first (n : nat) : option PyExn :=
  match n with 1%nat => Some conflict | _ => None end.

Definition rejects_credentials (n : nat) : option PyExn := Some bad_token.

(** A backend that serves every call. *)
Definition serving : Backend nat := scripted (fun _ => None).

Definition reports : pystr := lit "/Reports".

(** The state after the client of [fresh] has connected. *)
Definition connected : State nat :=
  {| self := with_client token_uploader (Some (Dropbox_token (lit "token")));
     world := 1%nat;
     log := [Called GetCurrentAccount] |}.

(** A file of 150 MiB + 1 byte, all zero. *)
Definition big_size : Z := 150 * 1024 * 1024 + 1.
Definition big_content : bytes := List.repeat Byte.x00 (Z.to_nat big_size).
Definition big_host : Host := posix_host (one_file report big_size big_content).

End Scenario.

(* ===================================================================== *)
(** ** Vocabulary of the properties *)
(* ===================================================================== *)

Definition no_backslash (s : pystr) : Prop := Forall (fun c => c <> backslash) s.

(** The failure is an [ApiError] whose text names a path conflict. *)
Definition api_conflict (host : Host) (e : PyExn) : bool :=
  match e with
  | ApiError _ str_error => is_path_conflict host str_error
  | _ => false
  end.

(** The failures after which the retry loop goes on while iterations
    remain: everything but an [AuthError], a path conflict with overwrite
    disabled, and insufficient space. *)
Definition retryable (host : Host) (overwrite : bool) (e : PyExn) : bool :=
  match e with
  | AuthError _ => false
  | ApiError _ str_error =>
      if is_path_conflict host str_error then overwrite
      else negb (is_insufficient_space host str_error)
  | _ => true
  end.

(** The text by which an [UploadError] names its cause: [str(e.error)]
    where the [except ApiError] clause builds the message, [str(e)]
    elsewhere. *)
Definition cause_text (host : Host) (e : PyExn) : pystr :=
  match e with
  | ApiError str_e str_error =>
      if is_path_conflict host str_error then str_e else str_error
  | _ => exn_str e
  end.

Definition is_attempt (ev : Event) : bool :=
  match ev with Attempt _ => true | _ => false end.

(** Every sleep among the events lasts [RETRY_DELAY] seconds. *)
Definition fixed_delays (evs : list Event) : Prop :=
  Forall (fun ev => forall s, ev = Slept s -> s = RETRY_DELAY) evs.

(** Every retry (an iteration after the first) comes right after a sleep
    of [RETRY_DELAY] seconds; [prev] is the event before [evs]. *)
Fixpoint retries_delayed (prev : option Event) (evs : list Event) : bool :=
  match evs with
  | [] => true
  | ev :: rest =>
      match ev with
      | Attempt a =>
          if 1 <? a then
            match prev with
            | Some (Slept s) => s =? RETRY_DELAY
            | _ => false
            end
          else true
      | _ => true
      end && retries_delayed (Some ev) rest
  end.

Section LogVocabulary.

Variable W : Type.

(** The computation only adds backend calls to the log. *)
Definition adds_calls {A : Type} (m : Eng W A) : Prop :=
  forall st, exists cs, log (final_state (m st)) = log st ++ List.map Called cs.

End LogVocabulary.

Section SessionVocabulary.

Variable W : Type.
Variable backend : Backend W.

(** The backend serves every session call. *)
Definition accepts_sessions : Prop :=
  (forall data w, exists r w',
      files_upload_session_start backend data w = (Returns r, w')) /\
  (forall data cursor w, exists w',
      files_upload_session_append_v2 backend data cursor w = (Returns tt, w')) /\
  (forall data cursor commit w, exists md w',
      files_upload_session_finish backend data cursor commit w = (Returns md, w')).

(** The events of the append calls with the given data and cursors. *)
Definition append_events (appends : list (bytes * UploadSessionCursor)) : list Event :=
  List.map (fun a => Called (SessionAppend (fst a) (snd a))) appends.

Definition full_chunks (appends : list (bytes * UploadSessionCursor)) : Prop :=
  Forall (fun a => Z.of_nat (List.length (fst a)) = CHUNK_SIZE) appends.

End SessionVocabulary.

Section RunVocabulary.

Variable W : Type.
Variable backend : Backend W.
Variable host : Host.
Variable fuel : nat.
Variables local_path dropbox_folder : pystr.
Variable filename : option pystr.
Variable overwrite : bool.

Local Notation "'file_path'" := (_resolve_local_path host local_path).
Local Notation "'dropbox_path'" :=
  (canonical_remote_path host dropbox_folder filename
     (_resolve_local_path host local_path)).
Local Notation "'file_size'" :=
  (stat_st_size (node host (_resolve_local_path host local_path))).
Local Notation "'body'" :=
  (attempt_body backend host fuel file_path dropbox_path file_size overwrite).
Local Notation "'handler'" := (on_failure host dropbox_path overwrite).

(** The state in which the loop goes on after iteration [attempt] failed
    with [e] in state [st]. *)
Definition after_failure (attempt : Z) (e : PyExn) (st : State W) : State W :=
  final_state (handler attempt e st).

(** [begins st0 attempt last_error st]: in the run of [upload] from
    [st0], iteration [attempt] of the retry loop begins in state [st]
    with [last_error] as given (every earlier iteration failed and its
    [except] clause let the loop go on). *)
Inductive begins (st0 : State W) : Z -> option PyExn -> State W -> Prop :=
  | begins_first : begins st0 1 None st0
  | begins_next (attempt : Z) (last_error : option PyExn) (st st1 st2 : State W)
      (e e' : PyExn) :
      begins st0 attempt last_error st ->
      attempt <= MAX_RETRIES ->
      body (log_event (Attempt attempt) st) = Raise e st1 ->
      handler attempt e st1 = Ret e' st2 ->
      begins st0 (attempt + 1) (Some e') st2.

End RunVocabulary.

Arguments begins {W} backend host fuel local_path dropbox_folder filename overwrite
  st0 _ _ _.
Arguments after_failure {W} host local_path dropbox_folder filename overwrite
  attempt e st.

(** C4 as the specification states it: in every run, every retry comes
    right after a sleep of [RETRY_DELAY] seconds. *)
Definition every_retry_is_delayed : Prop :=
  forall (W : Type) (backend : Backend W) (host : Host) (fuel : nat)
         (local_path dropbox_folder : pystr) (filename : option pystr)
         (overwrite : bool) (st0 : State W),
  exists evs,
    log (final_state (upload backend host fuel local_path dropbox_folder filename
                        overwrite st0)) = log st0 ++ evs /\
    retries_delayed None evs = true.

(* ===================================================================== *)
(** ** The normaliser in closed form *)
(* ===================================================================== *)

(** Every run of consecutive slashes becomes one slash. *)
Fixpoint squeeze_slashes (s : pystr) : pystr :=
  match s with
  | [] => []
  | c :: t =>
      if N.eqb c slash && startswith t (lit "/")
      then squeeze_slashes t
      else c :: squeeze_slashes t
  end.

(** A backslash becomes a slash. *)
Definition unslash (c : codepoint) : codepoint :=
  if N.eqb c backslash then slash else c.

(** The three steps of the normaliser as the specification words them:
    prepend a slash if absent, replace every backslash with a slash,
    collapse every run of slashes into one. *)
Definition normalize_remote (path : pystr) : pystr :=
  squeeze_slashes
    (List.map unslash (if startswith path (lit "/") then path else slash :: path)).

Definition is_separator (c : codepoint) : bool :=
  N.eqb c slash || N.eqb c backslash.

(** A path in canonical form: it starts with a slash and has neither a
    backslash nor two slashes in a row. *)
Definition canonical (p : pystr) : Prop :=
  startswith p (lit "/") = true /\ no_backslash p /\ contains (lit "//") p = false.

(* ===================================================================== *)
(** ** The life cycle of the uploader and its callers *)
(* ===================================================================== *)

(** The arguments of the command line, as [parse_args] returns them. *)
Record Args : Type := {
  args_file : pystr;
  args_folder : pystr;
  args_filename : option pystr;
  args_token : option pystr;
  args_no_overwrite : bool
}.

(** An entry of the result list of [upload_multiple_files]. *)
Inductive FileResult : Type :=
  | Uploaded (file path : pystr)
  | NotUploaded (file error : pystr).

Definition result_file (r : FileResult) : pystr :=
  match r with Uploaded f _ | NotUploaded f _ => f end.

Section LifeCycle.

Variable W : Type.
Variable backend : Backend W.
(** [dropbox.Dropbox.close]. *)
Variable client_close : W -> Reply unit * W.
Variable host : Host.
(** [os.environ.get]. *)
Variable environ : pystr -> option pystr.
(** Appending a line to the file named first; [Some e] when it fails. *)
Variable append_line : pystr -> pystr -> option PyExn.

(** [DropboxUploader.__init__]. *)
Definition __init__ (access_token : option pystr) : Uploader :=
  {| _explicit_access_token := access_token;
     _env_access_token := environ (lit "DROPBOX_ACCESS_TOKEN");
     _app_key := environ (lit "DROPBOX_APP_KEY");
     _app_secret := environ (lit "DROPBOX_APP_SECRET");
     _refresh_token := environ (lit "DROPBOX_REFRESH_TOKEN");
     _client := None |}.

(** [DropboxUploader.close].  The call of the SDK's [close] moves the
    backend on; it is not among the logged operations. *)
Definition close : Eng W unit :=
  fun st =>
    match _client (self st) with
    | Some _ =>
        let (reply, w) := client_close (world st) in
        match reply with
        | Returns _ =>
            Ret tt {| self := with_client (self st) None; world := w; log := log st |}
        | Raises e =>
            Raise e {| self := self st; world := w; log := log st |}
        end
    | None => Ret tt st
    end.

(** [close] of the client always returns. *)
Definition closes_quietly : Prop :=
  forall w, exists w', client_close w = (Returns tt, w').

(** [with uploader: block], for an uploader that is [self] already:
    [__enter__] returns [self]; [__exit__] closes and returns [False], so
    an exception of the block goes on, unless [close] raises another. *)
Definition with_uploader {A : Type} (block : Eng W A) : Eng W A :=
  fun st =>
    match block st with
    | Ret a st' => (close ;; ret a) st'
    | Raise e st' => (close ;; raise e) st'
    | OutOfFuel st' => OutOfFuel st'
    end.

(** A new uploader object takes the place of [self]. *)
Definition construct (access_token : option pystr) (st : State W) : State W :=
  {| self := __init__ access_token; world := world st; log := log st |}.

(** [upload_file]. *)
Definition upload_file (fuel : nat) (local_path dropbox_folder : pystr)
    (access_token filename : option pystr) (overwrite : bool) : Eng W pystr :=
  fun st =>
    with_uploader (upload backend host fuel local_path dropbox_folder filename overwrite)
      (construct access_token st).

(** The loop of [upload_multiple_files] (example_usage.py). *)
Fixpoint upload_each (fuel : nat) (files : list pystr) (folder : pystr)
    (results : list FileResult) : Eng W (list FileResult) :=
  match files with
  | [] => ret results
  | local_file :: rest =>
      r <- try_except
             (dropbox_path <- upload backend host fuel local_file folder None true ;;
              ret (Uploaded local_file dropbox_path))
             (fun e => ret (NotUploaded local_file (exn_str e))) ;;
      upload_each fuel rest folder (results ++ [r])
  end.

(** [upload_multiple_files] (example_usage.py). *)
Definition upload_multiple_files (fuel : nat) (files : list pystr) (folder : pystr)
  : Eng W (list FileResult) :=
  fun st => with_uploader (upload_each fuel files folder []) (construct None st).

(** The exit code that the [except] clauses of [main] choose. *)
Definition exit_code (e : PyExn) : Z :=
  match e with
  | AuthenticationError _ => 2
  | FileNotFoundError _ => 1
  | UploadError _ => 3
  | DropboxUploaderError _ => 4
  | _ => 99
  end.

(** [main] of the command line, after [parse_args]; it yields the exit
    code.  [Path(args.file)] designates what its resolved path does. *)
Definition main (fuel : nat) (args : Args) : Eng W Z :=
  fun st =>
    let file_path := path_resolve host (args_file args) in
    if negb (path_exists (node host file_path)) then Ret 1 st
    else if negb (path_is_file (node host file_path)) then Ret 1 st
    else
      try_except
        (dropbox_path <-
           (fun st => with_uploader
              (upload backend host fuel (args_file args) (args_folder args)
                 (args_filename args) (negb (args_no_overwrite args)))
              (construct (args_token args) st)) ;;
         (* Set GitHub Actions output if running in that environment *)
         match truthy (environ (lit "GITHUB_OUTPUT")) with
         | Some output =>
             match append_line output (lit "dropbox_path=" ++ dropbox_path ++ [10%N]) with
             | Some e => raise e
             | None => ret 0
             end
         | None => ret 0
         end)
        (fun e => ret (exit_code e)) st.

End LifeCycle.

Arguments close {W} client_close _.
Arguments with_uploader {W} client_close {A} block _.
Arguments upload_file {W} backend client_close host environ fuel local_path
  dropbox_folder access_token filename overwrite _.
Arguments upload_each {W} backend host fuel files folder results _.
Arguments upload_multiple_files {W} backend client_close host environ fuel files folder _.
Arguments main {W} backend client_close host environ append_line fuel args _.
Arguments construct {W} environ access_token st.

(** The credentials that the [client] property finds in the uploader. *)
Definition credentials (u : Uploader) : option Client :=
  match truthy (_refresh_token u), truthy (_app_key u), truthy (_app_secret u) with
  | Some r, Some k, Some s => Some (Dropbox_refresh r k s)
  | _, _, _ =>
      match truthy (py_or (_explicit_access_token u) (_env_access_token u)) with
      | Some t => Some (Dropbox_token t)
      | None => None
      end
  end.

(** The exceptions that [upload] lets out of its retry loop. *)
Definition surfaced (e : PyExn) : Prop :=
  (exists msg, e = AuthenticationError msg) \/ (exists msg, e = UploadError msg).

(** The seconds slept among the events. *)
Fixpoint seconds_slept (evs : list Event) : Z :=
  match evs with
  | [] => 0
  | Slept s :: rest => s + seconds_slept rest
  | _ :: rest => seconds_slept rest
  end.

(** The identity checks among the events. *)
Fixpoint identity_checks (evs : list Event) : nat :=
  match evs with
  | [] => O
  | Called GetCurrentAccount :: rest => S (identity_checks rest)
  | _ :: rest => identity_checks rest
  end.

(** *** More scripts *)

Module Cases.
Import Scenario.

Definition full : PyExn :=
  ApiError (lit "ApiError(path/insufficient_space)") (lit "path/insufficient_space").

(** The account is full when the upload call arrives. *)
Definition no_space (n : nat) : option PyExn :=
  match n with 1%nat => Some full | _ => None end.

(** The identity check passes, the upload call is rejected. *)
Definition rejects_upload (n : nat) : option PyExn :=
  match n with 1%nat => Some bad_token | _ => None end.

(** An uploader without any credentials. *)
Definition anonymous : Uploader :=
  {| _explicit_access_token := None; _env_access_token := Some [];
     _app_key := None; _app_secret := None; _refresh_token := None;
     _client := None |}.

(** An environment with nothing but an access token. *)
Definition token_environ (name : pystr) : option pystr :=
  if list_eq_dec N.eq_dec name (lit "DROPBOX_ACCESS_TOKEN")
  then Some (lit "env-token") else None.

(** A client whose [close] always returns. *)
Definition closes (n : nat) : Reply unit * nat := (Returns tt, n).

(** An output file that can always be written. *)
Definition writable (file line : pystr) : option PyExn := None.

(** The command line [report.md --folder /Reports] and the same for a
    file that does not exist. *)
Definition report_args : Args :=
  {| args_file := report; args_folder := reports; args_filename := None;
     args_token := None; args_no_overwrite := false |}.

Definition missing_args : Args :=
  {| args_file := lit "/nope"; args_folder := reports; args_filename := None;
     args_token := None; args_no_overwrite := false |}.

End Cases.

Section ConnectionVocabulary.

Variable W : Type.

(** The identity check that is still to come: one while the uploader has
    no client object, none once it has one. *)
Definition pending (st : State W) : nat :=
  match _client (self st) with Some _ => 0 | None => 1 end.

(** The computation never adds more identity checks than were pending. *)
Definition thrifty {A : Type} (m : Eng W A) : Prop :=
  forall st,
    (identity_checks (log (final_state (m st))) + pending (final_state (m st)) <=
     identity_checks (log st) + pending st)%nat.

(** The computation never runs out of fuel. *)
Definition halts {A : Type} (m : Eng W A) : Prop :=
  forall st st', m st <> OutOfFuel st'.

End ConnectionVocabulary.

(** The cursors of the append calls carry the session id and, one after
    the other, the offset that the data sent so far adds up to. *)
Fixpoint cursors_track (sid : pystr) (off : Z)
    (appends : list (bytes * UploadSessionCursor)) : Prop :=
  match appends with
  | [] => True
  | a :: rest =>
      snd a = {| cursor_session_id := sid; offset := off |} /\
      cursors_track sid (off + Z.of_nat (List.length (fst a))) rest
  end.

(* ===================================================================== *)
(** ** The two upload paths as the backend sees them *)
(* ===================================================================== *)

(** A call of the chunked session. *)
Definition is_session_call (ev : Event) : bool :=
  match ev with
  | Called (SessionStart _) | Called (SessionAppend _ _)
  | Called (SessionFinish _ _ _) => true
  | _ => false
  end.

(** The single call that sends a whole file. *)
Definition is_whole_file_call (ev : Event) : bool :=
  match ev with
  | Called (FilesUpload _ _ _) => true
  | _ => false
  end.

Section EventVocabulary.

Variable W : Type.

(** Every event that the computation adds to the log satisfies [P]. *)
Definition emits (P : Event -> Prop) {A : Type} (m : Eng W A) : Prop :=
  forall st, exists evs, log (final_state (m st)) = log st ++ evs /\ Forall P evs.

End EventVocabulary.

Section BatchVocabulary.

Variable W : Type.
Variable backend : Backend W.
Variable host : Host.
Variable fuel : nat.
Variable folder : pystr.

(** [outcomes st files results st']: the calls [uploader.upload(local_file,
    folder)] for [files], one after the other from state [st], end in
    state [st'], and [results] has for each file, in order, the path
    that its call returned or [str(e)] of the exception that it raised. *)
Inductive outcomes : State W -> list pystr -> list FileResult -> State W -> Prop :=
  | outcomes_nil (st : State W) : outcomes st [] [] st
  | outcomes_uploaded (st st1 st' : State W) (local_file dropbox_path : pystr)
      (files : list pystr) (results : list FileResult) :
      upload backend host fuel local_file folder None true st = Ret dropbox_path st1 ->
      outcomes st1 files results st' ->
      outcomes st (local_file :: files) (Uploaded local_file dropbox_path :: results) st'
  | outcomes_failed (st st1 st' : State W) (local_file : pystr) (e : PyExn)
      (files : list pystr) (results : list FileResult) :
      upload backend host fuel local_file folder None true st = Raise e st1 ->
      outcomes st1 files results st' ->
      outcomes st (local_file :: files) (NotUploaded local_file (exn_str e) :: results) st'.

End BatchVocabulary.

(** *** Scripts at the size threshold and for a remote path that is taken *)

Module Edge.
Import Scenario.

(** A file of exactly 150 MiB, all zero. *)
Definition edge_size : Z := 150 * 1024 * 1024.
Definition edge_content : bytes := List.repeat Byte.x00 (Z.to_nat edge_size).
Definition edge_host : Host := posix_host (one_file report edge_size edge_content).

(** [str(e.error)] of the [ApiError] with which the SDK reports that the
    remote path is taken: the repr of the error value, which spells the
    tags [path] and [conflict] one by one. *)
Definition write_conflict_text : pystr :=
  lit "UploadError('path', UploadWriteFailed(reason=WriteError('conflict', WriteConflictError('file', None)), upload_session_id='AAAAAAAAAAE'))".

Definition write_conflict : PyExn :=
  ApiError (lit "ApiError('5a8f3e', " ++ write_conflict_text ++ lit ")")
           write_conflict_text.

(** The identity check passes; every upload call finds the path taken. *)
Definition taken (n : nat) : option PyExn :=
  match n with O => None | _ => Some write_conflict end.

End Edge.

(* ===================================================================== *)
(** * Properties of the path normaliser *)
(* ===================================================================== *)

Section NormaliserFacts.

(** Replacing a one-character pattern is a character-wise map. *)
Lemma replace_single_char (a b : codepoint) (s : pystr) :
  replace [a] [b] s = List.map (fun c => if N.eqb c a then b else c) s.
Proof.
  unfold replace.
  induction s as [|c t IH]; [reflexivity | ].
  cbn [replace_scan startswith List.length Nat.pred List.map app]. cbn [andb].
  rewrite andb_true_r, IH.
  destruct (N.eqb c a); reflexivity.
Qed.

(** A pass of [replace("//", "/")] keeps every property that all the
    characters of the string have. *)
Lemma replace_scan_dslash_Forall (P : codepoint -> Prop) (n : nat) :
  forall s, (List.length s <= n)%nat -> Forall P s ->
    Forall P (replace_scan (lit "//") (lit "/") 0 s).
Proof.
  induction n as [|n IH]; intros s Hn HP.
  - destruct s; [constructor | simpl in Hn; lia].
  - destruct s as [|a t]; [constructor | ].
    rewrite replace_scan_dslash_step.
    cbn [List.length] in Hn.
    inversion HP as [|? ? Ha Ht]; subst.
    destruct (startswith (a :: t) (lit "//")) eqn:E.
    + constructor.
      * cbn in E. apply andb_prop in E. destruct E as [E _].
        apply N.eqb_eq in E. subst a. exact Ha.
      * apply IH.
        -- destruct t; cbn [List.tl List.length] in *; lia.
        -- destruct t; [constructor | ]. inversion Ht; assumption.
    + constructor; [exact Ha | apply IH; [lia | exact Ht]].
Qed.

(** A pass of [replace("//", "/")] keeps a leading slash. *)
Lemma replace_dslash_head (s : pystr) :
  startswith s (lit "/") = true ->
  startswith (replace_scan (lit "//") (lit "/") 0 s) (lit "/") = true.
Proof.
  destruct s as [|c t]; [discriminate | ]. intros H.
  rewrite replace_scan_dslash_step.
  destruct (startswith (c :: t) (lit "//")); [reflexivity | ].
  cbn in *. exact H.
Qed.

(** The loop, unfolded once. *)
Lemma collapse_slashes_once (path : pystr) :
  collapse_slashes path =
  if contains (lit "//") path
  then collapse_slashes (replace (lit "//") (lit "/") path)
  else path.
Proof.
  funelim (collapse_slashes path);
    match goal with E : contains _ _ = _ |- _ => rewrite E end; reflexivity.
Qed.

(** The loop stops only when no ["//"] is left. *)
Lemma collapse_slashes_no_dslash (path : pystr) :
  contains (lit "//") (collapse_slashes path) = false.
Proof.
  funelim (collapse_slashes path); assumption.
Qed.

(** The loop keeps a leading slash. *)
Lemma collapse_slashes_head (path : pystr) :
  startswith path (lit "/") = true ->
  startswith (collapse_slashes path) (lit "/") = true.
Proof.
  funelim (collapse_slashes path); intros Hs; [ | assumption].
  match goal with IH : _ -> startswith _ _ = true |- _ => apply IH end.
  apply replace_dslash_head, Hs.
Qed.

(** The loop keeps every property that all the characters have. *)
Lemma collapse_slashes_Forall (P : codepoint -> Prop) (path : pystr) :
  Forall P path -> Forall P (collapse_slashes path).
Proof.
  funelim (collapse_slashes path); intros HP; [ | assumption].
  match goal with IH : forall Q, Forall Q _ -> _ |- _ => apply IH end.
  apply replace_scan_dslash_Forall with (n := List.length path); [lia | exact HP].
Qed.

(** The loop leaves a string without ["//"] alone. *)
Lemma collapse_slashes_id (path : pystr) :
  contains (lit "//") path = false -> collapse_slashes path = path.
Proof.
  intros H. rewrite collapse_slashes_once, H. reflexivity.
Qed.

(** What step two of the normaliser yields has no backslash. *)
Lemma replace_backslash_none (s : pystr) :
  no_backslash (replace (lit "\") (lit "/") s).
Proof.
  change (lit "\") with [backslash]. change (lit "/") with [slash].
  rewrite replace_single_char.
  induction s as [|c t IH]; [constructor | ].
  cbn [List.map]. constructor; [ | exact IH].
  destruct (N.eqb c backslash) eqn:E; [discriminate | ].
  apply N.eqb_neq. exact E.
Qed.

(** Without a backslash, step two changes nothing. *)
Lemma replace_backslash_id (s : pystr) :
  no_backslash s -> replace (lit "\") (lit "/") s = s.
Proof.
  change (lit "\") with [backslash]. change (lit "/") with [slash].
  rewrite replace_single_char.
  induction 1 as [|c t Hc Ht IH]; [reflexivity | ].
  cbn [List.map]. rewrite IH.
  apply N.eqb_neq in Hc. rewrite Hc. reflexivity.
Qed.

(** Step two keeps a leading slash. *)
Lemma replace_backslash_head (s : pystr) :
  startswith s (lit "/") = true ->
  startswith (replace (lit "\") (lit "/") s) (lit "/") = true.
Proof.
  change (lit "\") with [backslash]. change (lit "/") with [slash].
  rewrite replace_single_char.
  destruct s as [|c t]; [discriminate | ].
  cbn. rewrite !andb_true_r. intros H. apply N.eqb_eq in H. subst c.
  reflexivity.
Qed.

(** Step one yields a string that starts with a slash. *)
Lemma prepend_slash_head (path : pystr) :
  startswith (if negb (startswith path (lit "/")) then lit "/" ++ path else path)
             (lit "/") = true.
Proof.
  destruct (startswith path (lit "/")) eqn:E; [exact E | reflexivity].
Qed.

(** A string with no ["//"] does not start with ["//"]. *)
Lemma no_dslash_not_prefix (s : pystr) :
  contains (lit "//") s = false -> startswith s (lit "//") = false.
Proof.
  destruct s; cbn [contains]; intros H; apply orb_false_elim in H; apply H.
Qed.

End NormaliserFacts.

(** The shape of every normalised path. *)
Lemma normalize_shape (y : pystr) :
  startswith (_normalize_dropbox_path y) (lit "/") = true /\
  startswith (_normalize_dropbox_path y) (lit "//") = false /\
  contains (lit "//") (_normalize_dropbox_path y) = false.
Proof.
  unfold _normalize_dropbox_path.
  pose proof (collapse_slashes_no_dslash
                (replace (lit "\") (lit "/")
                   (if negb (startswith y (lit "/")) then lit "/" ++ y else y))) as Hn.
  repeat split.
  - apply collapse_slashes_head, replace_backslash_head, prepend_slash_head.
  - apply no_dslash_not_prefix, Hn.
  - exact Hn.
Qed.

(** C8. For every input string, the normalised path starts with exactly
    one slash (it starts with "/" and not with "//") and "//" occurs
    nowhere in it; so does the canonical remote path that [upload]
    computes from any folder, file name and local path. *)
Theorem normalize_canonical_form (x : pystr) :
  (startswith (_normalize_dropbox_path x) (lit "/") = true /\
   startswith (_normalize_dropbox_path x) (lit "//") = false /\
   contains (lit "//") (_normalize_dropbox_path x) = false) /\
  (forall (host : Host) (dropbox_folder : pystr) (filename : option pystr)
          (file_path : pystr),
     let p := canonical_remote_path host dropbox_folder filename file_path in
     startswith p (lit "/") = true /\
     startswith p (lit "//") = false /\
     contains (lit "//") p = false).
Proof.
  split; [apply normalize_shape | intros; apply normalize_shape].
Qed.

(** C9. The normaliser is idempotent. *)
Theorem normalize_idempotent (x : pystr) :
  _normalize_dropbox_path (_normalize_dropbox_path x) = _normalize_dropbox_path x.
Proof.
  destruct (normalize_shape x) as [Hs [_ Hc]].
  assert (Hb : no_backslash (_normalize_dropbox_path x)).
  { unfold _normalize_dropbox_path.
    apply collapse_slashes_Forall, replace_backslash_none. }
  set (y := _normalize_dropbox_path x) in *.
  unfold _normalize_dropbox_path at 1.
  rewrite Hs. cbn [negb].
  rewrite (@replace_backslash_id y Hb).
  apply collapse_slashes_id, Hc.
Qed.

(** C10. The three examples of the specification; the second one is
    read both with single and with doubled backslashes. *)
Theorem normalize_examples :
  _normalize_dropbox_path (lit "Reports/2024") = lit "/Reports/2024" /\
  _normalize_dropbox_path (lit "\Reports\2024") = lit "/Reports/2024" /\
  _normalize_dropbox_path (lit "\\Reports\\2024") = lit "/Reports/2024" /\
  _normalize_dropbox_path (lit "/Reports//2024//file.md") = lit "/Reports/2024/file.md".
Proof. repeat split; reflexivity. Qed.

(* ===================================================================== *)
(** * Properties of the upload engine *)
(* ===================================================================== *)

(** ** Strategy dispatch *)

(** The threshold of [choose_strategy]: the small-file path for sizes
    up to 157,286,400 bytes, the large-file path above; the [try] body
    runs the path chosen for the size it is given. *)
Lemma strategy_by_size (W : Type) (backend : Backend W) (host : Host) (fuel : nat)
    (file_path dropbox_path : pystr) (overwrite : bool) (s : Z) :
  (choose_strategy s = SmallFile <-> s <= 157286400) /\
  (choose_strategy s = LargeFile <-> s > 157286400) /\
  choose_strategy 157286400 = SmallFile /\
  choose_strategy (157286400 + 1) = LargeFile /\
  attempt_body backend host fuel file_path dropbox_path s overwrite =
    (metadata <-
       (if s <=? 157286400
        then _upload_small_file backend host file_path dropbox_path overwrite
        else _upload_large_file backend host fuel file_path dropbox_path s overwrite) ;;
     ret (path_display metadata)).
Proof.
  unfold attempt_body, choose_strategy.
  change (150 * 1024 * 1024) with 157286400.
  destruct (Z.leb_spec s 157286400) as [H | H].
  - repeat split; try reflexivity; try discriminate; try lia.
  - repeat split; try reflexivity; try discriminate; try lia.
Qed.

(** ** Local validation *)

(** C6. When the resolved local path is missing or is not a regular
    file, [upload] raises [FileNotFoundError] in the very state it was
    called in: no event is logged (no attempt, no backend call, no sleep),
    the backend is untouched and the uploader's client is as it was. *)
Theorem missing_file_fails_before_any_call (W : Type) (backend : Backend W)
    (host : Host) (fuel : nat) (local_path dropbox_folder : pystr)
    (filename : option pystr) (overwrite : bool) (st : State W) :
  path_exists (node host (_resolve_local_path host local_path)) = false \/
  path_is_file (node host (_resolve_local_path host local_path)) = false ->
  exists msg,
    upload backend host fuel local_path dropbox_folder filename overwrite st =
    Raise (FileNotFoundError msg) st.
Proof.
  intros H. unfold upload.
  destruct (node host (_resolve_local_path host local_path)) eqn:E; cbn in *.
  - eexists. reflexivity.
  - eexists. reflexivity.
  - destruct H; discriminate.
Qed.

Lemma range_cons (a b : Z) : a < b -> range a b = a :: range (a + 1) b.
Proof.
  intros H. unfold range.
  replace (Z.to_nat (b - a)) with (S (Z.to_nat (b - (a + 1)))) by lia.
  reflexivity.
Qed.

Lemma range_nil (a b : Z) : b <= a -> range a b = [].
Proof.
  intros H. unfold range. replace (Z.to_nat (b - a)) with O by lia. reflexivity.
Qed.

Section RetryFacts.

Variable W : Type.
Variable backend : Backend W.
Variable host : Host.
Variable fuel : nat.
Variables file_path dropbox_path : pystr.
Variable file_size : Z.
Variable overwrite : bool.

Local Notation "'body'" :=
  (attempt_body backend host fuel file_path dropbox_path file_size overwrite).
Local Notation "'loop'" :=
  (retry_loop backend host fuel file_path dropbox_path file_size overwrite).
Local Notation "'handler'" := (on_failure host dropbox_path overwrite).

(** *** One iteration of the loop *)

Lemma loop_nil (last_error : option PyExn) (st : State W) :
  loop [] last_error st =
  Raise (UploadError (lit "Upload failed after " ++ str_int MAX_RETRIES ++
                      lit " attempts: " ++ str_last_error last_error)) st.
Proof. reflexivity. Qed.

Lemma loop_returns (attempt : Z) (rest : list Z) (last_error : option PyExn)
    (st st' : State W) (p : pystr) :
  body (log_event (Attempt attempt) st) = Ret p st' ->
  loop (attempt :: rest) last_error st = Ret p st'.
Proof.
  intros H. cbn [retry_loop]. unfold bind, try_except, emit, ret.
  rewrite H. reflexivity.
Qed.

Lemma loop_out_of_fuel (attempt : Z) (rest : list Z) (last_error : option PyExn)
    (st st' : State W) :
  body (log_event (Attempt attempt) st) = OutOfFuel st' ->
  loop (attempt :: rest) last_error st = OutOfFuel st'.
Proof.
  intros H. cbn [retry_loop]. unfold bind, try_except, emit, ret.
  rewrite H. reflexivity.
Qed.

Lemma loop_goes_on (attempt : Z) (rest : list Z) (last_error : option PyExn)
    (st st' st'' : State W) (e e' : PyExn) :
  body (log_event (Attempt attempt) st) = Raise e st' ->
  handler attempt e st' = Ret e' st'' ->
  loop (attempt :: rest) last_error st = loop rest (Some e') st''.
Proof.
  intros H H'. cbn [retry_loop]. unfold bind, try_except, emit, ret.
  rewrite H, H'. reflexivity.
Qed.

Lemma loop_raises (attempt : Z) (rest : list Z) (last_error : option PyExn)
    (st st' st'' : State W) (e e' : PyExn) :
  body (log_event (Attempt attempt) st) = Raise e st' ->
  handler attempt e st' = Raise e' st'' ->
  loop (attempt :: rest) last_error st = Raise e' st''.
Proof.
  intros H H'. cbn [retry_loop]. unfold bind, try_except, emit, ret.
  rewrite H, H'. reflexivity.
Qed.

(** *** The [except] clauses *)

Lemma handler_auth (attempt : Z) (s : pystr) (st : State W) :
  handler attempt (AuthError s) st =
  Raise (AuthenticationError (lit "Authentication failed: " ++ s)) st.
Proof. reflexivity. Qed.

Lemma handler_conflict (attempt : Z) (e : PyExn) (st : State W) :
  api_conflict host e = true ->
  handler attempt e st =
  if overwrite then Ret e st
  else Raise (UploadError (lit "File already exists at " ++ dropbox_path)) st.
Proof.
  destruct e; try discriminate. cbn [api_conflict on_failure]. intros ->.
  destruct overwrite; reflexivity.
Qed.

Lemma handler_delays (attempt : Z) (e : PyExn) (st : State W) :
  retryable host overwrite e = true ->
  api_conflict host e = false ->
  attempt < MAX_RETRIES ->
  handler attempt e st = Ret e (log_event (Slept RETRY_DELAY) st).
Proof.
  intros Hr Hc Ha. apply Z.ltb_lt in Ha.
  destruct e; cbn [retryable api_conflict on_failure] in *;
    try discriminate; try (rewrite Ha; reflexivity).
  rewrite Hc in *. apply negb_true_iff in Hr. rewrite Hr, Ha. reflexivity.
Qed.

Lemma handler_gives_up (attempt : Z) (e : PyExn) (st : State W) :
  retryable host overwrite e = true ->
  api_conflict host e = false ->
  MAX_RETRIES <= attempt ->
  exists prefix,
    handler attempt e st = Raise (UploadError (prefix ++ cause_text host e)) st.
Proof.
  intros Hr Hc Ha. apply Z.ltb_ge in Ha.
  destruct e; cbn [retryable api_conflict on_failure cause_text exn_str] in *;
    try discriminate; rewrite ?Hc in *; rewrite ?Ha;
    try (apply negb_true_iff in Hr; rewrite Hr);
    unfold raise; rewrite ?app_assoc; eexists; reflexivity.
Qed.

(** The other failures end the call, whichever iteration raised them. *)
Lemma handler_not_retryable (attempt : Z) (e : PyExn) (st : State W) :
  retryable host overwrite e = false ->
  exists e', handler attempt e st = Raise e' st.
Proof.
  destruct e; cbn [retryable on_failure]; try discriminate.
  - intros _. eexists. reflexivity.
  - destruct (is_path_conflict host str_error).
    + intros ->. eexists. reflexivity.
    + intros H. apply negb_false_iff in H. rewrite H. eexists. reflexivity.
Qed.

End RetryFacts.

(** ** What a computation adds to the log *)

Section LogFacts.

Variable W : Type.
Variable backend : Backend W.
Variable host : Host.

Lemma adds_calls_ret (A : Type) (a : A) : adds_calls (ret (W := W) a).
Proof. intros st. exists []. cbn. rewrite app_nil_r. reflexivity. Qed.

Lemma adds_calls_raise (A : Type) (e : PyExn) : adds_calls (raise (W := W) (A := A) e).
Proof. intros st. exists []. cbn. rewrite app_nil_r. reflexivity. Qed.

Lemma adds_calls_bind (A B : Type) (m : Eng W A) (k : A -> Eng W B) :
  adds_calls m -> (forall a, adds_calls (k a)) -> adds_calls (bind m k).
Proof.
  intros Hm Hk st. unfold bind.
  destruct (Hm st) as [cs Hcs].
  destruct (m st) as [a st' | e st' | st']; cbn [final_state] in *.
  - destruct (Hk a st') as [cs' Hcs']. exists (cs ++ cs').
    rewrite Hcs', Hcs, List.map_app, app_assoc. reflexivity.
  - exists cs. exact Hcs.
  - exists cs. exact Hcs.
Qed.

Lemma adds_calls_try_except (A : Type) (m : Eng W A) (h : PyExn -> Eng W A) :
  adds_calls m -> (forall e, adds_calls (h e)) -> adds_calls (try_except m h).
Proof.
  intros Hm Hh st. unfold try_except.
  destruct (Hm st) as [cs Hcs].
  destruct (m st) as [a st' | e st' | st']; cbn [final_state] in *.
  - exists cs. exact Hcs.
  - destruct (Hh e st') as [cs' Hcs']. exists (cs ++ cs').
    rewrite Hcs', Hcs, List.map_app, app_assoc. reflexivity.
  - exists cs. exact Hcs.
Qed.

Lemma adds_calls_call (A : Type) (c : Call) (op : W -> Reply A * W) :
  adds_calls (call c op).
Proof.
  intros st. exists [c]. unfold call.
  destruct (op (world st)) as [[a | e] w]; reflexivity.
Qed.

Lemma adds_calls_set_client (c : Client) : adds_calls (set_client (W := W) c).
Proof. intros st. exists []. cbn. rewrite app_nil_r. reflexivity. Qed.

Lemma adds_calls_verify : adds_calls (_verify_connection backend).
Proof.
  unfold _verify_connection. apply adds_calls_try_except.
  - apply adds_calls_bind; [apply adds_calls_call | intros; apply adds_calls_ret].
  - intros e. destruct e; apply adds_calls_raise.
Qed.

Lemma adds_calls_client : adds_calls (client backend).
Proof.
  assert (Hnew : forall c, adds_calls (set_client c ;; _verify_connection backend)).
  { intros c. apply adds_calls_bind;
      [apply adds_calls_set_client | intros; apply adds_calls_verify]. }
  intros st. unfold client.
  destruct (_client (self st)).
  - exists []. cbn. rewrite app_nil_r. reflexivity.
  - destruct (truthy (_refresh_token (self st))), (truthy (_app_key (self st))),
      (truthy (_app_secret (self st)));
      try apply Hnew;
      (destruct (truthy (py_or _ _));
       [apply Hnew | exists []; cbn; rewrite app_nil_r; reflexivity]).
Qed.

Lemma adds_calls_open_rb (file_path : pystr) :
  adds_calls (W := W) (open_rb host file_path).
Proof.
  unfold open_rb.
  destruct (node host file_path); first [apply adds_calls_ret | apply adds_calls_raise].
Qed.

Lemma adds_calls_small (file_path dropbox_path : pystr) (overwrite : bool) :
  adds_calls (_upload_small_file backend host file_path dropbox_path overwrite).
Proof.
  unfold _upload_small_file.
  apply adds_calls_bind; [apply adds_calls_open_rb | intros f].
  apply adds_calls_bind; [apply adds_calls_client | intros _].
  destruct (read_all f). apply adds_calls_call.
Qed.

Lemma adds_calls_chunks (fuel : nat) :
  forall f cursor commit file_size,
    adds_calls (upload_chunks backend fuel f cursor commit file_size).
Proof.
  induction fuel as [|fuel IH]; intros f cursor commit file_size;
    cbn [upload_chunks]; destruct (tell f <? file_size);
    try apply adds_calls_ret.
  - intros st. exists []. cbn. rewrite app_nil_r. reflexivity.
  - destruct (file_size - tell f <=? CHUNK_SIZE).
    + apply adds_calls_bind; [apply adds_calls_client | intros _].
      destruct (read _ f).
      apply adds_calls_bind; [apply adds_calls_call | intros; apply adds_calls_ret].
    + apply adds_calls_bind; [apply adds_calls_client | intros _].
      destruct (read CHUNK_SIZE f).
      apply adds_calls_bind; [apply adds_calls_call | intros _]. apply IH.
Qed.

Lemma adds_calls_large (fuel : nat) (file_path dropbox_path : pystr)
    (file_size : Z) (overwrite : bool) :
  adds_calls (_upload_large_file backend host fuel file_path dropbox_path
                file_size overwrite).
Proof.
  unfold _upload_large_file.
  apply adds_calls_bind; [apply adds_calls_open_rb | intros f].
  apply adds_calls_bind; [apply adds_calls_client | intros _].
  destruct (read CHUNK_SIZE f).
  apply adds_calls_bind; [apply adds_calls_call | intros s].
  apply adds_calls_bind; [apply adds_calls_chunks | intros [md | ]];
    [apply adds_calls_ret | apply adds_calls_raise].
Qed.

Lemma adds_calls_body (fuel : nat) (file_path dropbox_path : pystr)
    (file_size : Z) (overwrite : bool) :
  adds_calls (attempt_body backend host fuel file_path dropbox_path file_size overwrite).
Proof.
  unfold attempt_body.
  apply adds_calls_bind; [ | intros; apply adds_calls_ret].
  destruct (choose_strategy file_size);
    [apply adds_calls_small | apply adds_calls_large].
Qed.

Lemma no_attempt_among_calls (cs : list Call) :
  List.filter is_attempt (List.map Called cs) = [].
Proof. induction cs; [reflexivity | exact IHcs]. Qed.

Lemma fixed_delays_calls (cs : list Call) : fixed_delays (List.map Called cs).
Proof.
  induction cs; constructor; [intros s; discriminate | assumption].
Qed.

(** The [except] clauses end in one of three ways. *)
Lemma handler_cases (dropbox_path : pystr) (overwrite : bool) (attempt : Z)
    (e : PyExn) (st : State W) :
  on_failure host dropbox_path overwrite attempt e st = Ret e st \/
  on_failure host dropbox_path overwrite attempt e st =
    Ret e (log_event (Slept RETRY_DELAY) st) \/
  exists e', on_failure host dropbox_path overwrite attempt e st = Raise e' st.
Proof.
  destruct e; cbn [on_failure];
    repeat match goal with
           | |- context [if ?b then _ else _] => destruct b
           end;
    first [ left; reflexivity
          | right; left; reflexivity
          | right; right; eexists; reflexivity ].
Qed.

(** What a run of the retry loop adds to the log: at most one [Attempt]
    per iteration, and no sleep but of [RETRY_DELAY] seconds. *)
Lemma loop_events (fuel : nat) (file_path dropbox_path : pystr) (file_size : Z)
    (overwrite : bool) (attempts : list Z) :
  forall last_error st,
  exists evs,
    log (final_state (retry_loop backend host fuel file_path dropbox_path file_size
                        overwrite attempts last_error st)) = log st ++ evs /\
    (List.length (List.filter is_attempt evs) <= List.length attempts)%nat /\
    fixed_delays evs.
Proof.
  induction attempts as [|a rest IH]; intros last_error st.
  - exists []. cbn. rewrite app_nil_r. repeat split; [lia | constructor].
  - cbn [retry_loop]. unfold bind at 1. unfold emit.
    unfold bind, try_except.
    destruct (adds_calls_body fuel file_path dropbox_path file_size overwrite
                (log_event (Attempt a) st)) as [cs Hcs].
    destruct (attempt_body _ _ _ _ _ _ _ _) as [p st' | e st' | st'];
      cbn [final_state ret] in *.
    + exists (Attempt a :: List.map Called cs).
      rewrite Hcs. cbn [log log_event]. rewrite <- app_assoc. cbn [app].
      repeat split.
      * cbn [List.filter is_attempt List.length].
        rewrite no_attempt_among_calls. cbn. lia.
      * constructor; [intros s; discriminate | apply fixed_delays_calls].
    + destruct (handler_cases dropbox_path overwrite a e st') as [H | [H | [e' H]]];
        rewrite H; cbn [ret final_state].
      * destruct (IH (Some e) st') as [evs [Hl [Hn Hd]]].
        exists (Attempt a :: List.map Called cs ++ evs).
        rewrite Hl, Hcs. cbn [log log_event].
        rewrite <- !app_assoc. cbn [app]. repeat split.
        -- cbn [List.filter is_attempt List.length].
           rewrite List.filter_app, no_attempt_among_calls. cbn [app List.length]. lia.
        -- constructor; [intros s; discriminate | ].
           apply Forall_app. split; [apply fixed_delays_calls | exact Hd].
      * destruct (IH (Some e) (log_event (Slept RETRY_DELAY) st'))
          as [evs [Hl [Hn Hd]]].
        exists (Attempt a :: List.map Called cs ++ Slept RETRY_DELAY :: evs).
        rewrite Hl. cbn [log log_event]. rewrite Hcs. cbn [log log_event].
        rewrite <- !app_assoc. cbn [app]. repeat split.
        -- cbn [List.filter is_attempt List.length].
           rewrite List.filter_app, no_attempt_among_calls.
           cbn [app List.filter is_attempt List.length]. lia.
        -- constructor; [intros s; discriminate | ].
           apply Forall_app. split; [apply fixed_delays_calls | ].
           constructor; [intros s Hs; inversion Hs; reflexivity | exact Hd].
      * exists (Attempt a :: List.map Called cs).
        cbn [final_state]. rewrite Hcs. cbn [log log_event].
        rewrite <- app_assoc. cbn [app]. repeat split.
        -- cbn [List.filter is_attempt List.length].
           rewrite no_attempt_among_calls. cbn. lia.
        -- constructor; [intros s; discriminate | apply fixed_delays_calls].
    + exists (Attempt a :: List.map Called cs).
      rewrite Hcs. cbn [log log_event]. rewrite <- app_assoc. cbn [app].
      repeat split.
      * cbn [List.filter is_attempt List.length].
        rewrite no_attempt_among_calls. cbn. lia.
      * constructor; [intros s; discriminate | apply fixed_delays_calls].
Qed.

End LogFacts.

(** ** Runs of [upload] *)

Section Runs.

Variable W : Type.
Variable backend : Backend W.
Variable host : Host.
Variable fuel : nat.
Variables local_path dropbox_folder : pystr.
Variable filename : option pystr.
Variable overwrite : bool.

Local Notation "'file_path'" := (_resolve_local_path host local_path).
Local Notation "'dropbox_path'" :=
  (canonical_remote_path host dropbox_folder filename
     (_resolve_local_path host local_path)).
Local Notation "'file_size'" :=
  (stat_st_size (node host (_resolve_local_path host local_path))).
Local Notation "'body'" :=
  (attempt_body backend host fuel file_path dropbox_path file_size overwrite).
Local Notation "'loop'" :=
  (retry_loop backend host fuel file_path dropbox_path file_size overwrite).
Local Notation "'handler'" := (on_failure host dropbox_path overwrite).
Local Notation "'run'" :=
  (upload backend host fuel local_path dropbox_folder filename overwrite).
Local Notation "'begins'" :=
  (begins backend host fuel local_path dropbox_folder filename overwrite).
Local Notation "'after_failure'" :=
  (after_failure host local_path dropbox_folder filename overwrite).

Lemma begins_bounds (st0 st : State W) (attempt : Z) (last_error : option PyExn) :
  begins st0 attempt last_error st -> 1 <= attempt <= MAX_RETRIES + 1.
Proof. induction 1; unfold MAX_RETRIES in *; lia. Qed.

Lemma upload_runs_loop (st0 : State W) :
  path_is_file (node host file_path) = true ->
  run st0 = loop (range 1 (MAX_RETRIES + 1)) None st0.
Proof.
  intros H. unfold upload.
  destruct (node host file_path); try discriminate. reflexivity.
Qed.

Lemma begins_run (st0 st : State W) (attempt : Z) (last_error : option PyExn) :
  begins st0 attempt last_error st ->
  loop (range 1 (MAX_RETRIES + 1)) None st0 =
  loop (range attempt (MAX_RETRIES + 1)) last_error st.
Proof.
  induction 1 as [| a last st st1 st2 e e' Hb IH Ha Hbody Hh]; [reflexivity | ].
  rewrite IH, (@range_cons a (MAX_RETRIES + 1)) by lia.
  eapply loop_goes_on; eassumption.
Qed.

Lemma retryable_goes_on (attempt : Z) (e : PyExn) (st : State W) :
  retryable host overwrite e = true ->
  attempt < MAX_RETRIES ->
  handler attempt e st = Ret e (after_failure attempt e st).
Proof.
  intros Hr Ha. unfold after_failure.
  destruct (api_conflict host e) eqn:Hc.
  - rewrite handler_conflict by exact Hc.
    destruct e; try discriminate. cbn [retryable api_conflict] in *.
    rewrite Hc in Hr. rewrite Hr. reflexivity.
  - rewrite handler_delays by assumption. reflexivity.
Qed.

(** A failure on the last iteration that is retryable ends the call with
    an [UploadError] that names the cause. *)
Lemma last_attempt_fails (st0 st st1 : State W) (last_error : option PyExn) (e : PyExn) :
  begins st0 MAX_RETRIES last_error st ->
  body (log_event (Attempt MAX_RETRIES) st) = Raise e st1 ->
  retryable host overwrite e = true ->
  exists prefix,
    loop (range 1 (MAX_RETRIES + 1)) None st0 =
    Raise (UploadError (prefix ++ cause_text host e)) st1.
Proof.
  intros Hb Hbody Hr.
  rewrite (begins_run Hb), (@range_cons MAX_RETRIES (MAX_RETRIES + 1)) by lia.
  rewrite (@range_nil (MAX_RETRIES + 1) (MAX_RETRIES + 1)) by lia.
  destruct (api_conflict host e) eqn:Hc.
  - assert (Hh : handler MAX_RETRIES e st1 = Ret e st1).
    { rewrite handler_conflict by exact Hc.
      destruct e; try discriminate. cbn [retryable api_conflict] in *.
      rewrite Hc in Hr. rewrite Hr. reflexivity. }
    erewrite loop_goes_on by eassumption. rewrite loop_nil.
    destruct e; try discriminate. cbn [api_conflict cause_text] in *. rewrite Hc.
    cbn [str_last_error exn_str]. rewrite !app_assoc. eexists. reflexivity.
  - assert (Hm : MAX_RETRIES <= MAX_RETRIES) by lia.
    destruct (@handler_gives_up W host dropbox_path overwrite MAX_RETRIES e st1
                Hr Hc Hm) as [prefix Hh].
    exists prefix. eapply loop_raises; eassumption.
Qed.

(** An [AuthError] raised by the upload call or by a session call ends
    the call at once with [AuthenticationError]. *)
Lemma auth_error_is_final (st0 st st1 : State W) (attempt : Z)
    (last_error : option PyExn) (s : pystr) :
  path_is_file (node host file_path) = true ->
  begins st0 attempt last_error st ->
  attempt <= MAX_RETRIES ->
  body (log_event (Attempt attempt) st) = Raise (AuthError s) st1 ->
  run st0 = Raise (AuthenticationError (lit "Authentication failed: " ++ s)) st1.
Proof.
  intros Hf Hb Ha Hbody.
  rewrite (upload_runs_loop st0 Hf), (begins_run Hb).
  rewrite (@range_cons attempt (MAX_RETRIES + 1)) by lia.
  eapply loop_raises; [eassumption | apply handler_auth].
Qed.

(** C2. (a) A call of [upload] runs at most [MAX_RETRIES] = 1 + 2
    iterations of the retry loop.  When iterations 1 and 2 fail with
    retryable failures, then (b) if iteration 3 succeeds the call returns
    the path that iteration obtained, and (c) if iteration 3 fails with a
    retryable failure the call raises an [UploadError] whose message ends
    with the text of that last cause. *)
Theorem bounded_retry (st0 : State W) :
  (exists evs,
     log (final_state (run st0)) = log st0 ++ evs /\
     Z.of_nat (List.length (List.filter is_attempt evs)) <= MAX_RETRIES /\
     MAX_RETRIES = 1 + 2) /\
  (path_is_file (node host file_path) = true ->
   forall e1 st1 e2 st2,
     body (log_event (Attempt 1) st0) = Raise e1 st1 ->
     retryable host overwrite e1 = true ->
     body (log_event (Attempt 2) (after_failure 1 e1 st1)) = Raise e2 st2 ->
     retryable host overwrite e2 = true ->
     (forall p st3,
        body (log_event (Attempt 3) (after_failure 2 e2 st2)) = Ret p st3 ->
        run st0 = Ret p st3) /\
     (forall e3 st3,
        body (log_event (Attempt 3) (after_failure 2 e2 st2)) = Raise e3 st3 ->
        retryable host overwrite e3 = true ->
        exists prefix,
          run st0 = Raise (UploadError (prefix ++ cause_text host e3)) st3)).
Proof.
  split.
  - unfold upload.
    destruct (node host file_path) eqn:E; cbn [path_exists path_is_file negb].
    + exists []. cbn. rewrite app_nil_r. repeat split. unfold MAX_RETRIES. lia.
    + exists []. cbn. rewrite app_nil_r. repeat split. unfold MAX_RETRIES. lia.
    + destruct (loop_events backend host fuel file_path dropbox_path
                  (stat_st_size (RegularFile st_size content)) overwrite
                  (range 1 (MAX_RETRIES + 1)) None st0) as [evs [Hl [Hn _]]].
      exists evs. repeat split; [exact Hl | ].
      change (List.length (range 1 (MAX_RETRIES + 1))) with 3%nat in Hn.
      unfold MAX_RETRIES. lia.
  - intros Hf e1 st1 e2 st2 H1 R1 H2 R2.
    assert (B2 : begins st0 (1 + 1) (Some e1) (after_failure 1 e1 st1)).
    { eapply begins_next;
        [apply begins_first | unfold MAX_RETRIES; lia | exact H1 | ].
      apply retryable_goes_on; [exact R1 | unfold MAX_RETRIES; lia]. }
    assert (B3 : begins st0 (2 + 1) (Some e2) (after_failure 2 e2 st2)).
    { eapply begins_next; [exact B2 | unfold MAX_RETRIES; lia | exact H2 | ].
      apply retryable_goes_on; [exact R2 | unfold MAX_RETRIES; lia]. }
    change (2 + 1) with MAX_RETRIES in B3.
    split.
    + intros p st3 H3.
      rewrite (upload_runs_loop st0 Hf), (begins_run B3).
      rewrite (@range_cons MAX_RETRIES (MAX_RETRIES + 1)) by lia.
      apply loop_returns. exact H3.
    + intros e3 st3 H3 R3.
      rewrite (upload_runs_loop st0 Hf).
      exact (last_attempt_fails B3 H3 R3).
Qed.

(** The branch for a conflict: when an iteration of the retry loop fails
    with an [ApiError] whose text contains ["path/conflict"] while
    overwrite is disabled, the call raises
    [UploadError("File already exists at ...")] in the state the failed
    backend call left: whichever iteration it is, nothing follows it. *)
Lemma conflict_without_overwrite_is_final (st0 st st1 : State W) (attempt : Z)
    (last_error : option PyExn) (str_e str_error : pystr) :
  path_is_file (node host file_path) = true ->
  overwrite = false ->
  begins st0 attempt last_error st ->
  attempt <= MAX_RETRIES ->
  body (log_event (Attempt attempt) st) = Raise (ApiError str_e str_error) st1 ->
  is_path_conflict host str_error = true ->
  run st0 = Raise (UploadError (lit "File already exists at " ++ dropbox_path)) st1.
Proof.
  intros Hf Ho Hb Ha Hbody Hc.
  rewrite (upload_runs_loop st0 Hf), (begins_run Hb).
  rewrite (@range_cons attempt (MAX_RETRIES + 1)) by lia.
  eapply loop_raises; [eassumption | ].
  rewrite handler_conflict by exact Hc. rewrite Ho. reflexivity.
Qed.

(** What the [except] clauses do between iterations.  After a retryable
    failure with iterations left, the loop goes on from the state of the
    failure extended by exactly one sleep of [RETRY_DELAY] = 5 seconds;
    only after an [ApiError] whose text contains ["path/conflict"] (with
    overwrite enabled) it goes on without any delay.  No run ever sleeps
    for another duration. *)
Lemma delay_between_attempts (st0 : State W) :
  (forall attempt last_error st e st1,
     path_is_file (node host file_path) = true ->
     begins st0 attempt last_error st ->
     attempt < MAX_RETRIES ->
     body (log_event (Attempt attempt) st) = Raise e st1 ->
     retryable host overwrite e = true ->
     let st2 := if api_conflict host e then st1
                else log_event (Slept RETRY_DELAY) st1 in
     begins st0 (attempt + 1) (Some e) st2 /\
     run st0 = loop (range (attempt + 1) (MAX_RETRIES + 1)) (Some e) st2) /\
  (exists evs, log (final_state (run st0)) = log st0 ++ evs /\ fixed_delays evs) /\
  RETRY_DELAY = 5.
Proof.
  split; [ | split; [ | reflexivity]].
  - intros attempt last_error st e st1 Hf Hb Ha Hbody Hr st2.
    assert (B : begins st0 (attempt + 1) (Some e) st2).
    { eapply begins_next; [eassumption | lia | eassumption | ].
      subst st2. destruct (api_conflict host e) eqn:Hc.
      - rewrite handler_conflict by exact Hc.
        destruct e; try discriminate. cbn [retryable api_conflict] in *.
        rewrite Hc in Hr. rewrite Hr. reflexivity.
      - apply handler_delays; assumption. }
    split; [exact B | ].
    rewrite upload_runs_loop by assumption. apply (begins_run B).
  - unfold upload.
    destruct (node host file_path) eqn:E; cbn [path_exists path_is_file negb].
    + exists []. cbn. rewrite app_nil_r. split; [reflexivity | constructor].
    + exists []. cbn. rewrite app_nil_r. split; [reflexivity | constructor].
    + destruct (loop_events backend host fuel file_path dropbox_path
                  (stat_st_size (RegularFile st_size content)) overwrite
                  (range 1 (MAX_RETRIES + 1)) None st0) as [evs [Hl [_ Hd]]].
      exists evs. split; assumption.
Qed.

End Runs.

(** ** Concrete runs *)

Import Scenario.

Lemma missing_file_witness :
  exists msg,
    upload serving report_host 0 (lit "/nope") reports None true fresh =
    Raise (FileNotFoundError msg) fresh.
Proof.
  apply missing_file_fails_before_any_call. left. reflexivity.
Defined.

Lemma bounded_retry_witness :
  (exists st3,
     upload (scripted flaky) report_host 0 report reports None true fresh =
     Ret (lit "/Reports/report.md") st3) /\
  (exists prefix st3,
     upload (scripted down) report_host 0 report reports None true fresh =
     Raise (UploadError (prefix ++ lit "connection reset")) st3).
Proof.
  split.
  - pose proof (bounded_retry (scripted flaky) report_host 0 report reports None
                  true fresh) as [_ H].
    specialize (H eq_refl).
    edestruct H as [Hb _]; [reflexivity | reflexivity | reflexivity | reflexivity | ].
    eexists. apply Hb. reflexivity.
  - pose proof (bounded_retry (scripted down) report_host 0 report reports None
                  true fresh) as [_ H].
    specialize (H eq_refl).
    edestruct H as [_ Hc]; [reflexivity | reflexivity | reflexivity | reflexivity | ].
    edestruct Hc as [prefix Hp]; [reflexivity | reflexivity | ].
    eexists. eexists. exact Hp.
Defined.

Lemma conflict_without_overwrite_witness :
  exists st1,
    upload (scripted conflict_second) report_host 0 report reports None false fresh =
    Raise (UploadError (lit "File already exists at /Reports/report.md")) st1 /\
    log st1 =
      [Attempt 1; Called GetCurrentAccount;
       Called (FilesUpload report_content (lit "/Reports/report.md") add_mode);
       Slept 5; Attempt 2;
       Called (FilesUpload report_content (lit "/Reports/report.md") add_mode)].
Proof.
  eexists. split.
  - eapply (@conflict_without_overwrite_is_final nat (scripted conflict_second)
              report_host 0 report reports None false fresh).
    + reflexivity.
    + reflexivity.
    + eapply begins_next;
        [apply begins_first | unfold MAX_RETRIES; lia | reflexivity | reflexivity].
    + unfold MAX_RETRIES. lia.
    + reflexivity.
    + reflexivity.
  - reflexivity.
Defined.


(** Hence not every retry is delayed. *)
Lemma conflict_retry_has_no_delay : ~ every_retry_is_delayed.
Proof.
  intros H.
  destruct (H nat (scripted conflict_first) report_host O report reports None true
              fresh) as [evs [Hl Hd]].
  cbn [log fresh app] in Hl.
  rewrite <- Hl in Hd. vm_compute in Hd. discriminate.
Qed.

Lemma delay_between_attempts_witness :
  begins (scripted flaky) report_host 0 report reports None true fresh 2 (Some reset)
    (log_event (Slept 5)
       {| self := with_client token_uploader (Some (Dropbox_token (lit "token")));
          world := 2%nat;
          log := [Attempt 1; Called GetCurrentAccount;
                  Called (FilesUpload report_content (lit "/Reports/report.md")
                            overwrite_mode)] |}) /\
  begins (scripted conflict_first) report_host 0 report reports None true fresh 2
    (Some conflict)
    {| self := with_client token_uploader (Some (Dropbox_token (lit "token")));
       world := 2%nat;
       log := [Attempt 1; Called GetCurrentAccount;
               Called (FilesUpload report_content (lit "/Reports/report.md")
                         overwrite_mode)] |}.
Proof.
  split.
  - pose proof (delay_between_attempts (scripted flaky) report_host 0 report reports
                  None true fresh) as [H _].
    refine (proj1 (H 1 None fresh reset _ eq_refl (begins_first _ _ _ _ _ _ _ _)
                     _ eq_refl eq_refl)).
    unfold MAX_RETRIES. lia.
  - pose proof (delay_between_attempts (scripted conflict_first) report_host 0 report
                  reports None true fresh) as [H _].
    refine (proj1 (H 1 None fresh conflict _ eq_refl (begins_first _ _ _ _ _ _ _ _)
                     _ eq_refl eq_refl)).
    unfold MAX_RETRIES. lia.
Defined.

(** C3 (code bug). The backend rejects the credentials on every call.
    The rejection of the identity check that the first use of the client
    makes does not end the call: the engine sleeps, starts a second
    iteration, and only the rejected upload call of that iteration ends
    the call with [AuthenticationError]. *)
Theorem rejected_identity_check_is_retried :
  exists st',
    upload (scripted rejects_credentials) report_host 0 report reports None true fresh =
    Raise (AuthenticationError (lit "Authentication failed: invalid_access_token")) st' /\
    log st' =
      [Attempt 1; Called GetCurrentAccount; Slept 5; Attempt 2;
       Called (FilesUpload report_content (lit "/Reports/report.md") overwrite_mode)].
Proof. eexists. split; [lazy; reflexivity | reflexivity]. Qed.

(** C7 (code bug). The remote path is taken and overwrite is disabled:
    every upload call fails with the [ApiError] of a write conflict.  Its
    text has the tags [path] and [conflict] but not ["path/conflict"], so
    the [except] clause does not take the branch that raises
    [UploadError("File already exists at ...")]: the engine sleeps and
    retries until the iterations are used up, and the call ends with the
    error of a failure that was retried. *)
Theorem write_conflict_without_overwrite_is_retried :
  is_path_conflict report_host Edge.write_conflict_text = false /\
  exists st',
    upload (scripted Edge.taken) report_host 0 report reports None false fresh =
    Raise (UploadError (lit "Upload failed after 3 attempts: " ++
                        Edge.write_conflict_text)) st' /\
    log st' =
      [Attempt 1; Called GetCurrentAccount;
       Called (FilesUpload report_content (lit "/Reports/report.md") add_mode);
       Slept 5; Attempt 2;
       Called (FilesUpload report_content (lit "/Reports/report.md") add_mode);
       Slept 5; Attempt 3;
       Called (FilesUpload report_content (lit "/Reports/report.md") add_mode)].
Proof.
  split; [reflexivity | eexists; split; [lazy; reflexivity | reflexivity]].
Qed.

(** ** The chunked session of the large-file path *)

Section LargeFile.

Variable W : Type.
Variable backend : Backend W.
Variable host : Host.

Local Notation "'accepts_sessions'" := (accepts_sessions backend).

Lemma read_spec (n : Z) (f f' : FileObj) (data : bytes) :
  read n f = (data, f') ->
  data = List.firstn (Z.to_nat n) (unread f) /\
  unread f' = List.skipn (Z.to_nat n) (unread f) /\
  tell f' = tell f + Z.of_nat (List.length data).
Proof. unfold read. intros H. inversion H. cbn. auto. Qed.

(** Reading keeps [tell] and the unread bytes in step, and a read of [n]
    bytes that are there yields exactly [n] bytes. *)
Lemma read_invariant (n : Z) (f f' : FileObj) (data : bytes) :
  read n f = (data, f') ->
  unread f = data ++ unread f' /\
  tell f' + Z.of_nat (List.length (unread f')) =
    tell f + Z.of_nat (List.length (unread f)) /\
  (0 <= n <= Z.of_nat (List.length (unread f)) -> Z.of_nat (List.length data) = n).
Proof.
  intros H. destruct (read_spec H) as [Hd [Hu Ht]].
  assert (Hs : unread f = data ++ unread f').
  { rewrite Hd, Hu. symmetry. apply List.firstn_skipn. }
  split; [exact Hs | split].
  - rewrite Ht, Hs at 1. rewrite List.length_app. lia.
  - intros Hn. rewrite Hd, List.length_firstn. lia.
Qed.

Lemma client_connected (st : State W) :
  _client (self st) <> None -> client backend st = Ret tt st.
Proof.
  intros H. unfold client. destruct (_client (self st)); [reflexivity | congruence].
Qed.

Lemma verify_keeps_self (st st1 : State W) :
  _verify_connection backend st = Ret tt st1 -> self st1 = self st.
Proof.
  unfold _verify_connection, try_except, bind, call, ret, raise.
  destruct (users_get_current_account backend (world st)) as [[a | e] w].
  - intros H. inversion H. reflexivity.
  - destruct e; discriminate.
Qed.

Lemma client_connects (st st1 : State W) :
  client backend st = Ret tt st1 -> _client (self st1) <> None.
Proof.
  assert (Hnew : forall c,
             (set_client c ;; _verify_connection backend) st = Ret tt st1 ->
             _client (self st1) <> None).
  { intros c H. unfold bind, set_client in H.
    apply verify_keeps_self in H. rewrite H. cbn. discriminate. }
  unfold client. destruct (_client (self st)) eqn:E.
  - intros H. inversion H. subst. rewrite E. discriminate.
  - destruct (truthy (_refresh_token (self st))), (truthy (_app_key (self st))),
      (truthy (_app_secret (self st)));
      try apply Hnew;
      (destruct (truthy (py_or _ _)); [apply Hnew | discriminate]).
Qed.

Lemma call_returns (A : Type) (c : Call) (op : W -> Reply A * W) (st : State W)
    (a : A) (w : W) :
  op (world st) = (Returns a, w) ->
  call c op st = Ret a {| self := self st; world := w; log := log st ++ [Called c] |}.
Proof. intros H. unfold call. rewrite H. reflexivity. Qed.

(** Whatever the backend does, the loop over a file of [s] bytes does not
    end by its condition turning false. *)
Lemma chunks_never_fall_through (commit : CommitInfo) (s : Z) (fuel : nat) :
  forall f cursor st st',
    tell f + Z.of_nat (List.length (unread f)) = s ->
    tell f < s ->
    upload_chunks backend fuel f cursor commit s st <> Ret None st'.
Proof.
  induction fuel as [|fuel IH]; intros f cursor st st' Hinv Hlt;
    cbn [upload_chunks]; apply Z.ltb_lt in Hlt; rewrite Hlt;
    [discriminate | apply Z.ltb_lt in Hlt].
  destruct (Z.leb_spec (s - tell f) CHUNK_SIZE) as [Hle | Hgt].
  - unfold bind. destruct (client backend st); try discriminate.
    destruct (read (s - tell f) f).
    destruct (call _ _ _); discriminate.
  - unfold bind at 1. destruct (client backend st) as [[] st1 | |]; try discriminate.
    destruct (read CHUNK_SIZE f) as [data f'] eqn:R.
    unfold bind. destruct (call _ _ _) as [[] st2 | |]; try discriminate.
    destruct (read_invariant R) as [_ [Hi Hn]].
    apply IH; [lia | ].
    destruct (read_spec R) as [_ [_ Ht]].
    rewrite Ht, Hn; unfold CHUNK_SIZE in *; lia.
Qed.

(** With a backend that serves the session calls and fuel for every
    chunk, the loop sends the unread bytes as full chunks followed by one
    finish call. *)
Lemma chunks_complete (commit : CommitInfo) (s : Z) (fuel : nat) :
  accepts_sessions ->
  forall f cursor st,
    _client (self st) <> None ->
    tell f + Z.of_nat (List.length (unread f)) = s ->
    tell f < s ->
    s - tell f <= CHUNK_SIZE * Z.of_nat fuel ->
    exists appends last cur md st',
      upload_chunks backend fuel f cursor commit s st = Ret (Some md) st' /\
      log st' = log st ++ append_events appends ++ [Called (SessionFinish last cur commit)] /\
      full_chunks appends /\
      List.concat (List.map fst appends) ++ last = unread f.
Proof.
  intros [_ [Happend Hfinish]].
  induction fuel as [|fuel IH]; intros f cursor st Hc Hinv Hlt Hfuel.
  - unfold CHUNK_SIZE in *. lia.
  - cbn [upload_chunks]. pose proof Hlt as Hlt'. apply Z.ltb_lt in Hlt'. rewrite Hlt'.
    destruct (Z.leb_spec (s - tell f) CHUNK_SIZE) as [Hle | Hgt].
    + unfold bind at 1. rewrite client_connected by exact Hc.
      destruct (read (s - tell f) f) as [data f'] eqn:R.
      destruct (Hfinish data cursor commit (world st)) as [md [w' Hw]].
      unfold bind. erewrite call_returns by exact Hw. cbn [ret].
      exists [], data, cursor, md. eexists. split; [reflexivity | ].
      cbn [log append_events List.map app List.concat].
      repeat split; [constructor | ].
      destruct (read_spec R) as [Hd _].
      rewrite Hd. apply List.firstn_all2. lia.
    + unfold bind at 1. rewrite client_connected by exact Hc.
      destruct (read CHUNK_SIZE f) as [data f'] eqn:R.
      destruct (Happend data cursor (world st)) as [w' Hw].
      unfold bind. erewrite call_returns by exact Hw.
      destruct (read_invariant R) as [Hs [Hi Hn]].
      destruct (read_spec R) as [_ [_ Ht]].
      assert (Hlen : Z.of_nat (List.length data) = CHUNK_SIZE).
      { apply Hn. unfold CHUNK_SIZE in *. lia. }
      edestruct (IH f' {| cursor_session_id := cursor_session_id cursor;
                          offset := tell f' |}
                   {| self := self st; world := w';
                      log := log st ++ [Called (SessionAppend data cursor)] |})
        as [appends [last [cur [md [st' [Hrun [Hlog [Hfull Hcat]]]]]]]].
      * exact Hc.
      * lia.
      * rewrite Ht, Hlen. lia.
      * rewrite Ht, Hlen. unfold CHUNK_SIZE in *. lia.
      * exists ((data, cursor) :: appends), last, cur, md, st'.
        split; [exact Hrun | ].
        split; [rewrite Hlog; cbn [log append_events List.map fst snd];
                rewrite <- app_assoc; reflexivity | ].
        split; [constructor; [exact Hlen | exact Hfull] | ].
        cbn [List.map List.concat fst]. rewrite <- app_assoc, Hcat. symmetry. exact Hs.
Qed.

(** C1. A file whose size [s] exceeds 150 MiB and whose content has
    exactly [s] bytes.  (a) Whatever the backend does, the chunk loop
    does not end without a finish call, so the defensive
    "Unexpected end of file" branch is not reached.  (b) With a backend
    that serves the session calls, a client that connects and fuel for
    every chunk, [_upload_large_file] returns, and after the client is
    connected it makes exactly: one start call with the first 4 MiB,
    append calls with 4 MiB each, and one finish call with the rest;
    the data of these calls, in order, is the content of the file. *)
Theorem large_file_session (fuel : nat) (file_path dropbox_path : pystr) (s : Z)
    (overwrite : bool) (st_size : Z) (content : bytes) :
  node host file_path = RegularFile st_size content ->
  150 * 1024 * 1024 < s ->
  Z.of_nat (List.length content) = s ->
  (forall fuel' cursor commit st st',
     upload_chunks backend fuel'
       (snd (read CHUNK_SIZE {| unread := content; tell := 0 |}))
       cursor commit s st <> Ret None st') /\
  (forall st st1,
     accepts_sessions ->
     client backend st = Ret tt st1 ->
     (Z.to_nat (s / CHUNK_SIZE) <= fuel)%nat ->
     exists first appends last cur md st',
       _upload_large_file backend host fuel file_path dropbox_path s overwrite st =
         Ret md st' /\
       log st' =
         log st1 ++ Called (SessionStart first) :: append_events appends ++
         [Called (SessionFinish last cur
                    {| commit_path := dropbox_path;
                       commit_mode := write_mode overwrite |})] /\
       Z.of_nat (List.length first) = CHUNK_SIZE /\
       CHUNK_SIZE = 4 * 1024 * 1024 /\
       full_chunks appends /\
       first ++ List.concat (List.map fst appends) ++ last = content /\
       Z.of_nat (List.length first) +
       Z.of_nat (List.length (List.concat (List.map fst appends))) +
       Z.of_nat (List.length last) = s).
Proof.
  intros Hnode Hbig Hlen.
  destruct (read CHUNK_SIZE {| unread := content; tell := 0 |}) as [first f1] eqn:R.
  destruct (read_invariant R) as [Hs [Hi Hn]].
  destruct (read_spec R) as [_ [_ Ht]].
  cbn [unread tell] in *.
  assert (Hfirst : Z.of_nat (List.length first) = CHUNK_SIZE).
  { apply Hn. unfold CHUNK_SIZE. lia. }
  split.
  - intros fuel' cursor commit st st'. cbn [snd].
    apply chunks_never_fall_through; [lia | ].
    rewrite Ht, Hfirst. unfold CHUNK_SIZE. lia.
  - intros st st1 Hacc Hclient Hfuel.
    assert (Hc : _client (self st1) <> None)
      by (eapply client_connects; eassumption).
    destruct Hacc as [Hstart Hrest].
    destruct (Hstart first (world st1)) as [r [w' Hw]].
    edestruct (@chunks_complete
                 {| commit_path := dropbox_path; commit_mode := write_mode overwrite |}
                 s fuel (conj Hstart Hrest) f1
                 {| cursor_session_id := session_id r; offset := tell f1 |}
                 {| self := self st1; world := w';
                    log := log st1 ++ [Called (SessionStart first)] |})
      as [appends [last [cur [md [st' [Hrun [Hlog [Hfull Hcat]]]]]]]].
    + exact Hc.
    + lia.
    + rewrite Ht, Hfirst. unfold CHUNK_SIZE. lia.
    + rewrite Ht, Hfirst.
      assert (Hdiv : s < CHUNK_SIZE * (s / CHUNK_SIZE) + CHUNK_SIZE).
      { pose proof (Z.mod_pos_bound s CHUNK_SIZE ltac:(unfold CHUNK_SIZE; lia)).
        pose proof (Z.div_mod s CHUNK_SIZE ltac:(unfold CHUNK_SIZE; lia)). lia. }
      assert (Hq : s / CHUNK_SIZE <= Z.of_nat fuel).
      { assert (0 <= s / CHUNK_SIZE)
          by (apply Z.div_pos; unfold CHUNK_SIZE; lia).
        lia. }
      unfold CHUNK_SIZE in *. nia.
    + exists first, appends, last, cur, md, st'.
      split.
      * unfold _upload_large_file, open_rb. rewrite Hnode.
        unfold bind at 1. cbn [ret]. unfold bind at 1. rewrite Hclient.
        rewrite R. unfold bind at 1. erewrite call_returns by exact Hw.
        unfold bind. rewrite Hrun. reflexivity.
      * split; [rewrite Hlog; cbn [log]; rewrite <- app_assoc; reflexivity | ].
        split; [exact Hfirst | ]. split; [reflexivity | ].
        split; [exact Hfull | ].
        assert (Hall : first ++ List.concat (List.map fst appends) ++ last = content).
        { rewrite Hcat. symmetry. exact Hs. }
        split; [exact Hall | ].
        rewrite <- Hlen, <- Hall, !List.length_app. lia.
Qed.

End LargeFile.

Lemma large_file_session_witness :
  exists first appends last cur md st',
    _upload_large_file serving big_host 37 report (lit "/Reports/report.md")
      big_size true fresh = Ret md st' /\
    log st' =
      log connected ++ Called (SessionStart first) :: append_events appends ++
      [Called (SessionFinish last cur
                 {| commit_path := lit "/Reports/report.md";
                    commit_mode := write_mode true |})] /\
    Z.of_nat (List.length first) = CHUNK_SIZE /\
    CHUNK_SIZE = 4 * 1024 * 1024 /\
    full_chunks appends /\
    first ++ List.concat (List.map fst appends) ++ last = big_content /\
    Z.of_nat (List.length first) +
    Z.of_nat (List.length (List.concat (List.map fst appends))) +
    Z.of_nat (List.length last) = big_size.
Proof.
  assert (Hnode : node big_host report = RegularFile big_size big_content)
    by reflexivity.
  assert (Hbig : 150 * 1024 * 1024 < big_size) by (unfold big_size; lia).
  assert (Hlen : Z.of_nat (List.length big_content) = big_size).
  { unfold big_content. rewrite List.repeat_length. apply Z2Nat.id.
    unfold big_size. lia. }
  apply (proj2 (@large_file_session nat serving big_host 37 report
                  (lit "/Reports/report.md") big_size true big_size big_content
                  Hnode Hbig Hlen) fresh connected).
  - repeat split; intros; repeat eexists.
  - reflexivity.
  - vm_compute. apply le_n.
Defined.

(* ===================================================================== *)
(** * Further properties of the path normaliser *)
(* ===================================================================== *)

Section SqueezeFacts.

(** A pass of [replace("//", "/")] keeps the first character. *)
Lemma replace_dslash_same_head (s : pystr) (p : pystr) :
  (List.length p <= 1)%nat ->
  startswith (replace_scan (lit "//") (lit "/") 0 s) p = startswith s p.
Proof.
  intros Hp. destruct p as [|q [|? ?]]; [reflexivity | | simpl in Hp; lia].
  destruct s as [|c t]; [reflexivity | ].
  rewrite replace_scan_dslash_step.
  destruct (startswith (c :: t) (lit "//")) eqn:E; [ | reflexivity].
  cbn in E. apply andb_prop in E. destruct E as [E _].
  apply N.eqb_eq in E. subst c. reflexivity.
Qed.

(** A pass of [replace("//", "/")] does not change what squeezing yields. *)
Lemma squeeze_after_pass (n : nat) :
  forall s, (List.length s <= n)%nat ->
    squeeze_slashes (replace_scan (lit "//") (lit "/") 0 s) = squeeze_slashes s /\
    forall c, squeeze_slashes (c :: replace_scan (lit "//") (lit "/") 0 s) =
              squeeze_slashes (c :: s).
Proof.
  induction n as [|n IH]; intros s Hn.
  - destruct s; [split; reflexivity | simpl in Hn; lia].
  - assert (Hfirst : squeeze_slashes (replace_scan (lit "//") (lit "/") 0 s) =
                     squeeze_slashes s).
    { destruct s as [|a t]; [reflexivity | ].
      cbn [List.length] in Hn.
      rewrite replace_scan_dslash_step.
      destruct (startswith (a :: t) (lit "//")) eqn:E.
      - destruct t as [|b t]; [cbn in E; rewrite andb_false_r in E; discriminate | ].
        cbn in E. apply andb_prop in E. destruct E as [Ea E].
        apply andb_prop in E. destruct E as [Eb _].
        apply N.eqb_eq in Ea, Eb. subst a b.
        cbn [List.tl List.length] in *.
        rewrite (proj2 (IH t ltac:(lia)) slash).
        cbn [squeeze_slashes startswith lit List.map list_ascii_of_string].
        reflexivity.
      - apply (proj2 (IH t ltac:(lia)) a). }
    split; [exact Hfirst | ].
    intros c. cbn [squeeze_slashes].
    rewrite replace_dslash_same_head by (cbn; lia).
    rewrite Hfirst. reflexivity.
Qed.

(** Squeezing leaves a string without ["//"] alone. *)
Lemma squeeze_no_dslash (s : pystr) :
  contains (lit "//") s = false -> squeeze_slashes s = s.
Proof.
  induction s as [|c t IH]; [reflexivity | ].
  cbn [contains]. intros H. apply orb_false_elim in H. destruct H as [Hp Hc].
  cbn [squeeze_slashes]. rewrite (IH Hc).
  change (N.eqb c slash && startswith t (lit "/"))
    with (startswith (c :: t) (lit "//")).
  rewrite Hp. reflexivity.
Qed.

(** The loop computes the squeezed string. *)
Lemma collapse_is_squeeze (path : pystr) :
  collapse_slashes path = squeeze_slashes path.
Proof.
  remember (List.length path) as n eqn:Hn.
  assert (Hle : (List.length path <= n)%nat) by lia. clear Hn.
  revert path Hle. induction n as [|n IH]; intros path Hle;
    rewrite collapse_slashes_once;
    destruct (contains (lit "//") path) eqn:E;
    try (symmetry; apply squeeze_no_dslash; exact E).
  - apply replace_dslash_shorter in E. lia.
  - pose proof (replace_dslash_shorter path E) as Hs.
    rewrite IH by lia.
    apply (proj1 (squeeze_after_pass path (le_n _))).
Qed.

End SqueezeFacts.

Lemma replace_backslash_is_map (s : pystr) :
  replace (lit "\") (lit "/") s = List.map unslash s.
Proof.
  change (lit "\") with [backslash]. change (lit "/") with [slash].
  apply replace_single_char.
Qed.

(** The loop-based normaliser and the closed form agree. *)
Lemma normalize_as_squeeze (path : pystr) :
  _normalize_dropbox_path path = normalize_remote path.
Proof.
  unfold _normalize_dropbox_path, normalize_remote.
  rewrite collapse_is_squeeze.
  change (lit "\") with [backslash]. change (lit "/") with [slash].
  rewrite replace_single_char. fold unslash.
  destruct (startswith path [slash]); reflexivity.
Qed.

(** X1. The normaliser computes what the specification describes: a slash
    is prepended if absent, every backslash becomes a slash, and every run
    of slashes is collapsed into one. *)
Theorem normalize_closed_form (path : pystr) :
  _normalize_dropbox_path path = normalize_remote path.
Proof.
  unfold _normalize_dropbox_path, normalize_remote.
  rewrite collapse_is_squeeze, replace_backslash_is_map.
  destruct (startswith path (lit "/")); reflexivity.
Qed.

Section CanonicalFacts.

Lemma squeeze_keeps (P : codepoint -> Prop) (s : pystr) :
  Forall P s -> Forall P (squeeze_slashes s).
Proof.
  induction 1 as [|c t Hc Ht IH]; [constructor | ].
  cbn [squeeze_slashes].
  destruct (N.eqb c slash && startswith t (lit "/")); [exact IH | constructor; assumption].
Qed.

Lemma squeeze_length (s : pystr) :
  (List.length (squeeze_slashes s) <= List.length s)%nat.
Proof.
  induction s as [|c t IH]; [reflexivity | ].
  cbn [squeeze_slashes].
  destruct (N.eqb c slash && startswith t (lit "/")); cbn [List.length]; lia.
Qed.

Lemma squeeze_filter (f : codepoint -> bool) (s : pystr) :
  f slash = false ->
  List.filter f (squeeze_slashes s) = List.filter f s.
Proof.
  intros Hf. induction s as [|c t IH]; [reflexivity | ].
  cbn [squeeze_slashes].
  destruct (N.eqb c slash && startswith t (lit "/")) eqn:E.
  - apply andb_prop in E. destruct E as [E _]. apply N.eqb_eq in E. subst c.
    cbn [List.filter]. rewrite Hf. exact IH.
  - cbn [List.filter]. rewrite IH. reflexivity.
Qed.

Lemma squeeze_head (t : pystr) :
  startswith t (lit "/") = true ->
  squeeze_slashes (slash :: t) = squeeze_slashes t.
Proof. intros H. cbn [squeeze_slashes]. rewrite H, N.eqb_refl. reflexivity. Qed.

Lemma unslash_filter (s : pystr) :
  List.filter (fun c => negb (is_separator c)) (List.map unslash s) =
  List.filter (fun c => negb (is_separator c)) s.
Proof.
  induction s as [|c t IH]; [reflexivity | ].
  cbn [List.map List.filter]. rewrite IH. unfold unslash, is_separator.
  destruct (N.eqb c backslash) eqn:E; [ | rewrite E; reflexivity].
  rewrite orb_true_r. reflexivity.
Qed.

Lemma unslash_twice (s : pystr) :
  List.map unslash (List.map unslash s) = List.map unslash s.
Proof.
  rewrite List.map_map. apply List.map_ext. intros c. unfold unslash.
  destruct (N.eqb c backslash) eqn:E; [reflexivity | rewrite E; reflexivity].
Qed.

Lemma unslash_head (s : pystr) :
  startswith s (lit "/") = true -> startswith (List.map unslash s) (lit "/") = true.
Proof.
  destruct s as [|c t]; [discriminate | ].
  cbn. rewrite !andb_true_r. intros H. apply N.eqb_eq in H. subst c. reflexivity.
Qed.

(** X2. Every normalised path is canonical, and the canonical paths are
    exactly the paths that the normaliser leaves unchanged. *)
Theorem normalize_fixed_points (x p : pystr) :
  canonical (_normalize_dropbox_path x) /\
  (_normalize_dropbox_path p = p <-> canonical p).
Proof.
  assert (G : forall y, canonical (_normalize_dropbox_path y)).
  { intros y. destruct (normalize_shape y) as [Hs [_ Hc]].
    repeat split; [exact Hs | | exact Hc].
    unfold _normalize_dropbox_path.
    apply collapse_slashes_Forall, replace_backslash_none. }
  split; [apply G | split].
  - intros H. rewrite <- H. apply G.
  - intros [Hs [Hb Hc]]. unfold _normalize_dropbox_path.
    rewrite Hs. cbn [negb].
    rewrite (@replace_backslash_id p Hb).
    apply collapse_slashes_id, Hc.
Qed.

(** X3. Normalising only touches separators: the characters other than
    slash and backslash come out unchanged and in order, and the result
    is at most one character longer than the input. *)
Theorem normalize_keeps_names (x : pystr) :
  List.filter (fun c => negb (is_separator c)) (_normalize_dropbox_path x) =
  List.filter (fun c => negb (is_separator c)) x /\
  (List.length (_normalize_dropbox_path x) <= List.length x + 1)%nat.
Proof.
  rewrite normalize_as_squeeze. unfold normalize_remote.
  split.
  - rewrite squeeze_filter by reflexivity. rewrite unslash_filter.
    destruct (startswith x (lit "/")); reflexivity.
  - etransitivity; [apply squeeze_length | ].
    rewrite List.length_map.
    destruct (startswith x (lit "/")); cbn [List.length]; lia.
Qed.

(** X4. The two spellings of a path normalise alike: replacing the
    backslashes of the input with slashes, or putting one more slash in
    front of it, does not change the result. *)
Theorem normalize_separator_blind (x : pystr) :
  _normalize_dropbox_path (replace (lit "\") (lit "/") x) = _normalize_dropbox_path x /\
  _normalize_dropbox_path (slash :: x) = _normalize_dropbox_path x.
Proof.
  rewrite !normalize_as_squeeze. unfold normalize_remote.
  rewrite replace_backslash_is_map.
  change (startswith (slash :: x) (lit "/")) with true. cbn match.
  split.
  - destruct (startswith x (lit "/")) eqn:E.
    + rewrite (unslash_head x E). rewrite unslash_twice. reflexivity.
    + destruct (startswith (List.map unslash x) (lit "/")) eqn:E'.
      * rewrite unslash_twice. cbn [List.map].
        change (unslash slash) with slash.
        symmetry. apply squeeze_head. exact E'.
      * cbn [List.map]. rewrite unslash_twice. reflexivity.
  - destruct (startswith x (lit "/")) eqn:E; [ | reflexivity].
    cbn [List.map]. change (unslash slash) with slash.
    apply squeeze_head, unslash_head. exact E.
Qed.

End CanonicalFacts.

(* ===================================================================== *)
(** * Further properties of the uploader *)
(* ===================================================================== *)

(** ** Local paths *)

Section LocalPathFacts.

Variable host : Host.

(** X5. A Git Bash path [/d/rest] with an alphabetic [d] is resolved as
    the drive path [D:/rest], where [D] is [d] in upper case. *)
Theorem resolve_git_bash_path (d : codepoint) (rest : pystr) :
  isalpha host d = true ->
  startswith (upper host d) (lit "/") = false ->
  _resolve_local_path host (slash :: d :: slash :: rest) =
  path_resolve host (upper host d ++ lit ":" ++ slash :: rest).
Proof.
  intros Ha Hu. unfold _resolve_local_path.
  rewrite N.eqb_refl. cbn [andb]. rewrite Ha.
  assert (Hc : startswith (upper host d ++ lit ":" ++ slash :: rest)
                 (lit "/cygdrive/") = false).
  { destruct (upper host d) as [|u us]; [reflexivity | ].
    cbn in Hu. rewrite andb_true_r in Hu.
    cbn. rewrite Hu. reflexivity. }
  rewrite Hc. reflexivity.
Qed.

(** X6. A Cygwin path [/cygdrive/d] followed by at least one character
    is resolved as the drive path; [/cygdrive/d] alone is too short and is
    resolved as it stands. *)
Theorem resolve_cygdrive_path (d c : codepoint) (rest : pystr) :
  isalpha host d = true ->
  _resolve_local_path host (lit "/cygdrive/" ++ d :: c :: rest) =
    path_resolve host (upper host d ++ lit ":" ++ c :: rest) /\
  _resolve_local_path host (lit "/cygdrive/" ++ [d]) =
    path_resolve host (lit "/cygdrive/" ++ [d]).
Proof.
  intros Ha. unfold _resolve_local_path. split.
  - cbn [lit List.map list_ascii_of_string app N_of_ascii].
    cbn [N.eqb andb startswith]. cbn -[Z.leb Z.of_nat isalpha upper path_resolve].
    replace (12 <=? Z.of_nat (S (S (S (S (S (S (S (S (S (S (S (S (List.length rest))))))))))))))
      with true by (symmetry; apply Z.leb_le; lia).
    rewrite Ha. reflexivity.
  - reflexivity.
Qed.

(** X7. A path that has no slash at position 0 or none at position 2,
    and that does not start with [/cygdrive/], is resolved as it stands. *)
Theorem resolve_native_path (p : pystr) :
  List.nth_error p 0 <> Some slash \/ List.nth_error p 2 <> Some slash ->
  startswith p (lit "/cygdrive/") = false ->
  _resolve_local_path host p = path_resolve host p.
Proof.
  intros Hn Hc. unfold _resolve_local_path.
  assert (H1 : match p with
               | c0 :: drive_letter :: c2 :: rest =>
                   if N.eqb c0 slash && N.eqb c2 slash
                   then if isalpha host drive_letter
                        then upper host drive_letter ++ lit ":" ++ c2 :: rest
                        else p
                   else p
               | _ => p
               end = p).
  { destruct p as [|c0 [|d [|c2 rest]]]; try reflexivity.
    destruct (N.eqb c0 slash && N.eqb c2 slash) eqn:E; [ | reflexivity].
    apply andb_prop in E. destruct E as [E0 E2].
    apply N.eqb_eq in E0, E2. subst. cbn in Hn. destruct Hn; congruence. }
  rewrite H1, Hc. reflexivity.
Qed.

End LocalPathFacts.

(** ** The client *)

Section ClientFacts.

Variable W : Type.
Variable backend : Backend W.

Lemma client_unfold (st : State W) :
  _client (self st) = None ->
  client backend st =
  match credentials (self st) with
  | Some c => (set_client c ;; _verify_connection backend) st
  | None => Raise (AuthenticationError no_credentials_message) st
  end.
Proof.
  intros H. unfold client, credentials. rewrite H.
  destruct (truthy (_refresh_token (self st))), (truthy (_app_key (self st))),
    (truthy (_app_secret (self st)));
    try reflexivity; destruct (truthy (py_or _ _)); reflexivity.
Qed.

(** X8. The first use of the client of an uploader that has credentials
    makes exactly one identity check.  It returns when the check returns;
    an [AuthError] of the check becomes [AuthenticationError] and any
    other failure [DropboxUploaderError].  In every case the client
    object stays assigned, so that the next use returns at once. *)
Theorem client_first_use (st : State W) (c : Client) :
  _client (self st) = None ->
  credentials (self st) = Some c ->
  let st' := {| self := with_client (self st) (Some c);
                world := snd (users_get_current_account backend (world st));
                log := log st ++ [Called GetCurrentAccount] |} in
  client backend st =
    match fst (users_get_current_account backend (world st)) with
    | Returns _ => Ret tt st'
    | Raises (AuthError s) =>
        Raise (AuthenticationError (lit "Invalid Dropbox credentials: " ++ s)) st'
    | Raises e =>
        Raise (DropboxUploaderError (lit "Failed to connect to Dropbox: " ++ exn_str e)) st'
    end /\
  client backend st' = Ret tt st'.
Proof.
  intros Hn Hc st'. split; [ | reflexivity].
  rewrite (client_unfold st Hn), Hc.
  unfold bind, set_client, _verify_connection, try_except, bind, call, ret, raise.
  cbn [world log self]. subst st'.
  destruct (users_get_current_account backend (world st)) as [[a | e] w];
    [reflexivity | destruct e; reflexivity].
Qed.

(** X9. Without credentials the client raises [AuthenticationError]
    without any call; and [upload] of an existing file then never
    contacts the backend: its three iterations fail alike, with two
    sleeps between them, and the call ends in [UploadError]. *)
Theorem upload_without_credentials (host : Host) (fuel : nat)
    (local_path dropbox_folder : pystr) (filename : option pystr)
    (overwrite : bool) (st : State W) :
  _client (self st) = None ->
  credentials (self st) = None ->
  path_is_file (node host (_resolve_local_path host local_path)) = true ->
  client backend st = Raise (AuthenticationError no_credentials_message) st /\
  upload backend host fuel local_path dropbox_folder filename overwrite st =
    Raise (UploadError (lit "Upload failed: " ++ no_credentials_message))
      {| self := self st; world := world st;
         log := log st ++ [Attempt 1; Slept 5; Attempt 2; Slept 5; Attempt 3] |}.
Proof.
  intros Hn Hc Hf.
  assert (Hclient : forall evs,
             client backend {| self := self st; world := world st; log := evs |} =
             Raise (AuthenticationError no_credentials_message)
               {| self := self st; world := world st; log := evs |}).
  { intros evs. rewrite client_unfold by exact Hn. cbn [self]. rewrite Hc. reflexivity. }
  split; [destruct st; apply Hclient | ].
  unfold upload.
  destruct (node host (_resolve_local_path host local_path)) eqn:E; try discriminate.
  cbn [path_exists path_is_file negb].
  assert (Hbody : forall evs,
             attempt_body backend host fuel (_resolve_local_path host local_path)
               (canonical_remote_path host dropbox_folder filename
                  (_resolve_local_path host local_path))
               (stat_st_size (RegularFile st_size content)) overwrite
               {| self := self st; world := world st; log := evs |} =
             Raise (AuthenticationError no_credentials_message)
               {| self := self st; world := world st; log := evs |}).
  { intros evs. unfold attempt_body.
    destruct (choose_strategy _).
    - unfold _upload_small_file, open_rb. rewrite E.
      unfold bind at 1. unfold bind at 1. cbn [ret]. unfold bind at 1.
      rewrite Hclient. reflexivity.
    - unfold _upload_large_file, open_rb. rewrite E.
      unfold bind at 1. unfold bind at 1. cbn [ret]. unfold bind at 1.
      rewrite Hclient. reflexivity. }
  change (range 1 (MAX_RETRIES + 1)) with [1; 2; 3].
  cbn [retry_loop]. unfold bind, try_except, emit, log_event. cbn [self world log].
  rewrite !Hbody. cbn [on_failure]. unfold bind, sleep, emit, log_event, ret, raise.
  cbn [self world log Z.ltb Z.compare Pos.compare Pos.compare_cont MAX_RETRIES].
  rewrite !Hbody. cbn [on_failure]. unfold bind, sleep, emit, log_event, ret, raise.
  cbn [self world log Z.ltb Z.compare Pos.compare Pos.compare_cont MAX_RETRIES].
  rewrite !Hbody. cbn [on_failure]. unfold bind, sleep, emit, log_event, ret, raise.
  cbn [self world log Z.ltb Z.compare Pos.compare Pos.compare_cont MAX_RETRIES exn_str].
  rewrite <- !app_assoc. reflexivity.
Qed.

(** The client object after the first use is the one that the
    credentials of the uploader determine. *)
Lemma client_object (st : State W) :
  _client (self st) = None ->
  _client (self (final_state (client backend st))) = credentials (self st).
Proof.
  intros Hn. rewrite (client_unfold st Hn).
  destruct (credentials (self st)) as [c | ] eqn:Hc; [ | exact Hn].
  unfold bind, set_client, _verify_connection, try_except, bind, call, ret, raise.
  cbn [world log self].
  destruct (users_get_current_account backend (world st)) as [[a | e] w];
    [reflexivity | destruct e; reflexivity].
Qed.

(** X10. Which credentials the client of a new uploader is built from:
    the refresh token with the app key and secret when the environment has
    all three non-empty, whatever tokens there are; otherwise the access
    token passed to the constructor when it is non-empty; otherwise the
    access token of the environment, if that is non-empty. *)
Theorem credential_precedence (environ : pystr -> option pystr)
    (access_token : option pystr) (st : State W) :
  let built :=
    _client (self (final_state (client backend (construct environ access_token st)))) in
  (forall r k s,
     truthy (environ (lit "DROPBOX_REFRESH_TOKEN")) = Some r ->
     truthy (environ (lit "DROPBOX_APP_KEY")) = Some k ->
     truthy (environ (lit "DROPBOX_APP_SECRET")) = Some s ->
     built = Some (Dropbox_refresh r k s)) /\
  (truthy (environ (lit "DROPBOX_REFRESH_TOKEN")) = None \/
   truthy (environ (lit "DROPBOX_APP_KEY")) = None \/
   truthy (environ (lit "DROPBOX_APP_SECRET")) = None ->
   (forall t, truthy access_token = Some t -> built = Some (Dropbox_token t)) /\
   (truthy access_token = None ->
    built = match truthy (environ (lit "DROPBOX_ACCESS_TOKEN")) with
            | Some t => Some (Dropbox_token t)
            | None => None
            end)).
Proof.
  intros built. subst built. rewrite client_object by reflexivity.
  unfold credentials, construct, __init__, py_or.
  cbn [self _refresh_token _app_key _app_secret _explicit_access_token
       _env_access_token].
  split.
  - intros r k s -> -> ->. reflexivity.
  - intros H. split.
    + intros t Ht. rewrite Ht.
      assert (Hsame : truthy access_token = Some t) by exact Ht.
      destruct (truthy (environ (lit "DROPBOX_REFRESH_TOKEN"))),
        (truthy (environ (lit "DROPBOX_APP_KEY"))),
        (truthy (environ (lit "DROPBOX_APP_SECRET")));
        try (destruct H as [H | [H | H]]; discriminate);
        rewrite Hsame; reflexivity.
    + intros Ht. rewrite Ht.
      destruct (truthy (environ (lit "DROPBOX_REFRESH_TOKEN"))),
        (truthy (environ (lit "DROPBOX_APP_KEY"))),
        (truthy (environ (lit "DROPBOX_APP_SECRET")));
        try (destruct H as [H | [H | H]]; discriminate);
        reflexivity.
Qed.

End ClientFacts.

(** ** More on the retry loop *)

Section LoopCases.

Variable W : Type.
Variable backend : Backend W.
Variable host : Host.
Variable fuel : nat.
Variables file_path dropbox_path : pystr.
Variable file_size : Z.
Variable overwrite : bool.

Local Notation "'body'" :=
  (attempt_body backend host fuel file_path dropbox_path file_size overwrite).
Local Notation "'loop'" :=
  (retry_loop backend host fuel file_path dropbox_path file_size overwrite).
Local Notation "'handler'" := (on_failure host dropbox_path overwrite).

(** The three ways in which the [except] clauses end, with what decides
    each. *)
Lemma handler_kinds (attempt : Z) (e : PyExn) (st : State W) :
  (handler attempt e st = Ret e st /\ overwrite = true /\ api_conflict host e = true) \/
  (handler attempt e st = Ret e (log_event (Slept RETRY_DELAY) st) /\
   attempt < MAX_RETRIES) \/
  (exists e', handler attempt e st = Raise e' st /\ surfaced e').
Proof.
  assert (Hs : forall (A : Type) (a : A) (s : State W),
             (sleep RETRY_DELAY ;; ret a) s = Ret a (log_event (Slept RETRY_DELAY) s))
    by reflexivity.
  destruct e; cbn [on_failure api_conflict];
    try (destruct (Z.ltb_spec attempt MAX_RETRIES);
         [right; left; split; [apply Hs | assumption]
         | right; right; eexists; split; [reflexivity | right; eexists; reflexivity]]).
  - right; right. eexists. split; [reflexivity | left; eexists; reflexivity].
  - destruct (is_path_conflict host str_error) eqn:Hc.
    + destruct overwrite.
      * left. repeat split.
      * right; right. eexists. split; [reflexivity | right; eexists; reflexivity].
    + destruct (is_insufficient_space host str_error).
      * right; right. eexists. split; [reflexivity | right; eexists; reflexivity].
      * destruct (Z.ltb_spec attempt MAX_RETRIES);
          [right; left; split; [apply Hs | assumption]
          | right; right; eexists; split; [reflexivity | right; eexists; reflexivity]].
Qed.

(** One iteration of the loop: what it logs, and the five ways in which
    the loop goes on from it. *)
Lemma loop_cons_cases (attempt : Z) (rest : list Z) (last_error : option PyExn)
    (st : State W) :
  exists cs st1,
    log st1 = log st ++ Attempt attempt :: List.map Called cs /\
    ((exists p, loop (attempt :: rest) last_error st = Ret p st1) \/
     loop (attempt :: rest) last_error st = OutOfFuel st1 \/
     (exists e', loop (attempt :: rest) last_error st = Raise e' st1 /\ surfaced e') \/
     (exists e, overwrite = true /\ api_conflict host e = true /\
                loop (attempt :: rest) last_error st = loop rest (Some e) st1) \/
     (exists e, attempt < MAX_RETRIES /\
                loop (attempt :: rest) last_error st =
                loop rest (Some e) (log_event (Slept RETRY_DELAY) st1))).
Proof.
  destruct (adds_calls_body backend host fuel file_path dropbox_path file_size overwrite
              (log_event (Attempt attempt) st)) as [cs Hcs].
  exists cs.
  destruct (body (log_event (Attempt attempt) st)) as [p st1 | e st1 | st1] eqn:Hb;
    cbn [final_state log log_event] in Hcs; exists st1;
    (split; [rewrite Hcs, <- app_assoc; reflexivity | ]).
  - left. exists p. apply loop_returns. exact Hb.
  - destruct (handler_kinds attempt e st1) as [[Hh [Ho Hc]] | [[Hh Ha] | [e' [Hh Hk]]]].
    + right; right; right; left. exists e. repeat split; try assumption.
      eapply loop_goes_on; eassumption.
    + right; right; right; right. exists e. split; [assumption | ].
      eapply loop_goes_on; eassumption.
    + right; right; left. exists e'. split; [ | assumption].
      eapply loop_raises; eassumption.
  - right; left. apply loop_out_of_fuel. exact Hb.
Qed.

Lemma seconds_slept_app (xs ys : list Event) :
  seconds_slept (xs ++ ys) = seconds_slept xs + seconds_slept ys.
Proof.
  induction xs as [|[c | s | a] xs IH]; cbn [app seconds_slept]; lia.
Qed.

Lemma seconds_slept_calls (cs : list Call) : seconds_slept (List.map Called cs) = 0.
Proof. induction cs; [reflexivity | exact IHcs]. Qed.

Lemma retries_delayed_calls (cs : list Call) (prev : option Event) (evs : list Event) :
  retries_delayed prev (List.map Called cs ++ Slept RETRY_DELAY :: evs) =
  retries_delayed (Some (Slept RETRY_DELAY)) evs /\
  retries_delayed prev (List.map Called cs) = true.
Proof.
  revert prev. induction cs as [|c cs IH]; intros prev.
  - split; reflexivity.
  - cbn [List.map app retries_delayed andb]. apply IH.
Qed.

(** The loop lets out only [AuthenticationError] and [UploadError]. *)
Lemma loop_surfaces (attempts : list Z) :
  forall last_error st e st',
    loop attempts last_error st = Raise e st' -> surfaced e.
Proof.
  induction attempts as [|a rest IH]; intros last_error st e st' H.
  - rewrite loop_nil in H. inversion H. right. eexists. reflexivity.
  - destruct (loop_cons_cases a rest last_error st)
      as [cs [st1 [_ [[p Hr] | [Hr | [[e' [Hr Hk]] | [[e0 [_ [_ Hr]]] | [e0 [_ Hr]]]]]]]]];
      rewrite Hr in H.
    + discriminate.
    + discriminate.
    + inversion H. subst. exact Hk.
    + eapply IH. exact H.
    + eapply IH. exact H.
Qed.

(** The loop sleeps [RETRY_DELAY] seconds at most once per iteration
    other than the last allowed one. *)
Lemma loop_sleeps (attempts : list Z) :
  forall last_error st,
  exists evs,
    log (final_state (loop attempts last_error st)) = log st ++ evs /\
    seconds_slept evs <=
    RETRY_DELAY *
    Z.of_nat (List.length (List.filter (fun a => a <? MAX_RETRIES) attempts)).
Proof.
  induction attempts as [|a rest IH]; intros last_error st.
  - exists []. rewrite loop_nil. cbn. rewrite app_nil_r. split; [reflexivity | lia].
  - assert (Hmono : 0 <= RETRY_DELAY *
                      Z.of_nat (List.length (List.filter (fun a => a <? MAX_RETRIES) rest)))
      by (unfold RETRY_DELAY; lia).
    assert (Hstep : RETRY_DELAY *
                    Z.of_nat (List.length (List.filter (fun a => a <? MAX_RETRIES) rest)) <=
                    RETRY_DELAY *
                    Z.of_nat (List.length
                                (List.filter (fun a => a <? MAX_RETRIES) (a :: rest)))).
    { cbn [List.filter]. destruct (a <? MAX_RETRIES); cbn [List.length];
        unfold RETRY_DELAY; lia. }
    destruct (loop_cons_cases a rest last_error st)
      as [cs [st1 [Hl [[p Hr] | [Hr | [[e' [Hr Hk]] | [[e0 [_ [_ Hr]]] | [e0 [Ha Hr]]]]]]]]];
      rewrite Hr; cbn [final_state].
    + exists (Attempt a :: List.map Called cs). split; [exact Hl | ].
      cbn [seconds_slept]. rewrite seconds_slept_calls. lia.
    + exists (Attempt a :: List.map Called cs). split; [exact Hl | ].
      cbn [seconds_slept]. rewrite seconds_slept_calls. lia.
    + exists (Attempt a :: List.map Called cs). split; [exact Hl | ].
      cbn [seconds_slept]. rewrite seconds_slept_calls. lia.
    + destruct (IH (Some e0) st1) as [evs [Hl' Hs]].
      exists ((Attempt a :: List.map Called cs) ++ evs).
      split; [rewrite Hl', Hl, <- app_assoc; reflexivity | ].
      rewrite seconds_slept_app. cbn [seconds_slept]. rewrite seconds_slept_calls. lia.
    + destruct (IH (Some e0) (log_event (Slept RETRY_DELAY) st1)) as [evs [Hl' Hs]].
      exists ((Attempt a :: List.map Called cs) ++ Slept RETRY_DELAY :: evs).
      split.
      * rewrite Hl'. cbn [log log_event]. rewrite Hl, <- !app_assoc. reflexivity.
      * rewrite seconds_slept_app. cbn [seconds_slept]. rewrite seconds_slept_calls.
        apply Z.ltb_lt in Ha. cbn [List.filter]. rewrite Ha. cbn [List.length].
        lia.
Qed.

(** With overwrite disabled, every iteration but the first one run comes
    right after a sleep of [RETRY_DELAY] seconds. *)
Lemma loop_delays_every_retry (attempts : list Z) :
  overwrite = false ->
  forall last_error st prev,
    match attempts with
    | a :: _ => 1 < a -> prev = Some (Slept RETRY_DELAY)
    | [] => True
    end ->
    exists evs,
      log (final_state (loop attempts last_error st)) = log st ++ evs /\
      retries_delayed prev evs = true.
Proof.
  intros Ho. induction attempts as [|a rest IH]; intros last_error st prev Hp.
  - exists []. rewrite loop_nil. cbn. rewrite app_nil_r. split; reflexivity.
  - assert (Hhead : forall tail,
               retries_delayed prev (Attempt a :: tail) =
               retries_delayed (Some (Attempt a)) tail).
    { intros tail. cbn [retries_delayed].
      destruct (Z.ltb_spec 1 a) as [H1 | H1]; [ | reflexivity].
      rewrite (Hp H1). rewrite Z.eqb_refl. reflexivity. }
    destruct (loop_cons_cases a rest last_error st)
      as [cs [st1 [Hl [[p Hr] | [Hr | [[e' [Hr Hk]] | [[e0 [Ht _]] | [e0 [Ha Hr]]]]]]]]];
      try rewrite Hr; cbn [final_state].
    + exists (Attempt a :: List.map Called cs). split; [exact Hl | ].
      rewrite Hhead. apply (retries_delayed_calls cs _ []).
    + exists (Attempt a :: List.map Called cs). split; [exact Hl | ].
      rewrite Hhead. apply (retries_delayed_calls cs _ []).
    + exists (Attempt a :: List.map Called cs). split; [exact Hl | ].
      rewrite Hhead. apply (retries_delayed_calls cs _ []).
    + congruence.
    + destruct (IH (Some e0) (log_event (Slept RETRY_DELAY) st1)
                  (Some (Slept RETRY_DELAY))) as [evs [Hl' Hd]].
      { destruct rest; [exact I | reflexivity]. }
      exists (Attempt a :: List.map Called cs ++ Slept RETRY_DELAY :: evs).
      split.
      * rewrite Hl'. cbn [log log_event]. rewrite Hl, <- !app_assoc. reflexivity.
      * rewrite Hhead.
        rewrite (proj1 (retries_delayed_calls cs (Some (Attempt a)) evs)).
        exact Hd.
Qed.

End LoopCases.

(** ** More on runs of [upload] *)

Section MoreRuns.

Variable W : Type.
Variable backend : Backend W.
Variable host : Host.
Variable fuel : nat.
Variables local_path dropbox_folder : pystr.
Variable filename : option pystr.
Variable overwrite : bool.

Local Notation "'file_path'" := (_resolve_local_path host local_path).
Local Notation "'dropbox_path'" :=
  (canonical_remote_path host dropbox_folder filename
     (_resolve_local_path host local_path)).
Local Notation "'file_size'" :=
  (stat_st_size (node host (_resolve_local_path host local_path))).
Local Notation "'body'" :=
  (attempt_body backend host fuel file_path dropbox_path file_size overwrite).
Local Notation "'loop'" :=
  (retry_loop backend host fuel file_path dropbox_path file_size overwrite).
Local Notation "'run'" :=
  (upload backend host fuel local_path dropbox_folder filename overwrite).
Local Notation "'begins'" :=
  (begins backend host fuel local_path dropbox_folder filename overwrite).

(** What [upload] does is either the failed validation or the loop. *)
Lemma upload_cases (st : State W) :
  (exists msg, run st = Raise (FileNotFoundError msg) st) \/
  run st = loop (range 1 (MAX_RETRIES + 1)) None st.
Proof.
  unfold upload. destruct (node host file_path);
    cbn [path_exists path_is_file negb];
    [left; eexists; reflexivity | left; eexists; reflexivity | right; reflexivity].
Qed.

(** What [upload] lets out. *)
Lemma upload_lets_out (st st' : State W) (e : PyExn) :
  run st = Raise e st' ->
  (exists msg, e = FileNotFoundError msg) \/ surfaced e.
Proof.
  intros H. destruct (upload_cases st) as [[msg Hv] | Hl]; rewrite H in *.
  - inversion Hv. left. eexists. reflexivity.
  - right. symmetry in Hl. eapply loop_surfaces. exact Hl.
Qed.

(** X11. Whatever the backend raises, [upload] itself raises nothing but
    [FileNotFoundError], [AuthenticationError] and [UploadError]: neither
    an exception of the SDK nor [DropboxUploaderError] gets out. *)
Theorem upload_error_taxonomy (st st' : State W) (e : PyExn) :
  run st = Raise e st' ->
  (exists msg, e = FileNotFoundError msg) \/
  (exists msg, e = AuthenticationError msg) \/
  (exists msg, e = UploadError msg).
Proof.
  intros H. destruct (upload_cases st) as [[msg Hv] | Hl]; rewrite H in *.
  - inversion Hv. left. eexists. reflexivity.
  - right. symmetry in Hl. eapply loop_surfaces. exact Hl.
Qed.

(** X12. A call of [upload] sleeps at most twice [RETRY_DELAY] seconds,
    10 seconds in all. *)
Theorem upload_sleeps_at_most_ten_seconds (st : State W) :
  exists evs,
    log (final_state (run st)) = log st ++ evs /\
    seconds_slept evs <= 10.
Proof.
  destruct (upload_cases st) as [[msg Hv] | Hl].
  - exists []. rewrite Hv. cbn. rewrite app_nil_r. split; [reflexivity | lia].
  - rewrite Hl.
    destruct (loop_sleeps backend host fuel file_path dropbox_path file_size overwrite
                (range 1 (MAX_RETRIES + 1)) None st) as [evs [Hlog Hs]].
    exists evs. split; [exact Hlog | exact Hs].
Qed.

(** X14. When an iteration fails with an error of the API that names
    insufficient space (and no path conflict), the call raises
    [UploadError("Insufficient space in Dropbox account")] in the state
    the failed call left, whichever iteration it is. *)
Theorem insufficient_space_is_final (st0 st st1 : State W) (attempt : Z)
    (last_error : option PyExn) (str_e str_error : pystr) :
  path_is_file (node host file_path) = true ->
  begins st0 attempt last_error st ->
  attempt <= MAX_RETRIES ->
  body (log_event (Attempt attempt) st) = Raise (ApiError str_e str_error) st1 ->
  is_path_conflict host str_error = false ->
  is_insufficient_space host str_error = true ->
  run st0 = Raise (UploadError (lit "Insufficient space in Dropbox account")) st1.
Proof.
  intros Hf Hb Ha Hbody Hc Hs.
  rewrite (upload_runs_loop backend host fuel local_path dropbox_folder filename
             overwrite st0 Hf).
  rewrite (begins_run Hb).
  rewrite (@range_cons attempt (MAX_RETRIES + 1)) by lia.
  eapply loop_raises; [eassumption | ].
  cbn [on_failure]. rewrite Hc, Hs. reflexivity.
Qed.

(** X15. An [AuthError] that the upload call or a session call raises
    ends the call at once with [AuthenticationError], in the state the
    rejected call left, whichever iteration it is. *)
Theorem rejected_upload_call_is_final (st0 st st1 : State W) (attempt : Z)
    (last_error : option PyExn) (s : pystr) :
  path_is_file (node host file_path) = true ->
  begins st0 attempt last_error st ->
  attempt <= MAX_RETRIES ->
  body (log_event (Attempt attempt) st) = Raise (AuthError s) st1 ->
  run st0 = Raise (AuthenticationError (lit "Authentication failed: " ++ s)) st1.
Proof.
  intros Hf Hb Ha Hbody.
  rewrite (upload_runs_loop backend host fuel local_path dropbox_folder filename
             overwrite st0 Hf).
  rewrite (begins_run Hb).
  rewrite (@range_cons attempt (MAX_RETRIES + 1)) by lia.
  eapply loop_raises; [eassumption | apply handler_auth].
Qed.

End MoreRuns.

(** X13. With overwrite disabled, every retry of [upload] comes right
    after a sleep of [RETRY_DELAY] seconds. *)
Theorem upload_without_overwrite_delays_every_retry (W : Type) (backend : Backend W)
    (host : Host) (fuel : nat) (local_path dropbox_folder : pystr)
    (filename : option pystr) (st : State W) :
  exists evs,
    log (final_state (upload backend host fuel local_path dropbox_folder filename
                        false st)) = log st ++ evs /\
    retries_delayed None evs = true.
Proof.
  destruct (upload_cases backend host fuel local_path dropbox_folder filename false st)
    as [[msg Hv] | Hl].
  - exists []. rewrite Hv. cbn. rewrite app_nil_r. split; reflexivity.
  - rewrite Hl. apply loop_delays_every_retry; [reflexivity | ].
    change (range 1 (MAX_RETRIES + 1)) with [1; 2; 3]. intros H. lia.
Qed.

Import Scenario Cases.

Lemma resolve_git_bash_witness :
  _resolve_local_path report_host (lit "/c/Users/test/file.md") =
  lit "C:/Users/test/file.md".
Proof.
  exact (resolve_git_bash_path report_host 99%N (lit "Users/test/file.md")
           eq_refl eq_refl).
Defined.

Lemma resolve_cygdrive_witness :
  _resolve_local_path report_host (lit "/cygdrive/c/Users/test/file.md") =
    lit "C:/Users/test/file.md" /\
  _resolve_local_path report_host (lit "/cygdrive/c") = lit "/cygdrive/c".
Proof.
  exact (resolve_cygdrive_path report_host 99%N 47%N (lit "Users/test/file.md") eq_refl).
Defined.

Lemma resolve_native_witness :
  _resolve_local_path report_host (lit "reports/today.md") = lit "reports/today.md".
Proof.
  apply (resolve_native_path report_host (lit "reports/today.md")).
  - left. discriminate.
  - reflexivity.
Defined.

Lemma client_first_use_witness :
  client (scripted rejects_credentials) fresh =
    Raise (AuthenticationError (lit "Invalid Dropbox credentials: invalid_access_token"))
      {| self := with_client token_uploader (Some (Dropbox_token (lit "token")));
         world := 1%nat; log := [Called GetCurrentAccount] |} /\
  client (scripted rejects_credentials)
    {| self := with_client token_uploader (Some (Dropbox_token (lit "token")));
       world := 1%nat; log := [Called GetCurrentAccount] |} =
    Ret tt
      {| self := with_client token_uploader (Some (Dropbox_token (lit "token")));
         world := 1%nat; log := [Called GetCurrentAccount] |}.
Proof.
  exact (client_first_use (scripted rejects_credentials) fresh eq_refl eq_refl).
Defined.

Lemma upload_without_credentials_witness :
  upload serving report_host 0 report reports None true
    {| self := anonymous; world := O; log := [] |} =
  Raise (UploadError (lit "Upload failed: " ++ no_credentials_message))
    {| self := anonymous; world := O;
       log := [Attempt 1; Slept 5; Attempt 2; Slept 5; Attempt 3] |}.
Proof.
  exact (proj2 (upload_without_credentials serving report_host 0 report reports None
                  true {| self := anonymous; world := O; log := [] |}
                  eq_refl eq_refl eq_refl)).
Defined.

Lemma upload_error_taxonomy_witness :
  (exists msg, FileNotFoundError (lit "File not found: /nope") = FileNotFoundError msg) \/
  (exists msg, FileNotFoundError (lit "File not found: /nope") = AuthenticationError msg) \/
  (exists msg, FileNotFoundError (lit "File not found: /nope") = UploadError msg).
Proof.
  apply (@upload_error_taxonomy nat serving report_host 0 (lit "/nope") reports None
           true fresh fresh).
  reflexivity.
Defined.

Lemma insufficient_space_witness :
  upload (scripted no_space) report_host 0 report reports None true fresh =
  Raise (UploadError (lit "Insufficient space in Dropbox account"))
    {| self := with_client token_uploader (Some (Dropbox_token (lit "token")));
       world := 2%nat;
       log := [Attempt 1; Called GetCurrentAccount;
               Called (FilesUpload report_content (lit "/Reports/report.md")
                         overwrite_mode)] |}.
Proof.
  apply (@insufficient_space_is_final nat (scripted no_space) report_host 0 report
           reports None true fresh fresh _ 1 None
           (lit "ApiError(path/insufficient_space)") (lit "path/insufficient_space")).
  - reflexivity.
  - apply begins_first.
  - unfold MAX_RETRIES. lia.
  - reflexivity.
  - reflexivity.
  - reflexivity.
Defined.

Lemma rejected_upload_call_witness :
  upload (scripted rejects_upload) report_host 0 report reports None true fresh =
  Raise (AuthenticationError (lit "Authentication failed: invalid_access_token"))
    {| self := with_client token_uploader (Some (Dropbox_token (lit "token")));
       world := 2%nat;
       log := [Attempt 1; Called GetCurrentAccount;
               Called (FilesUpload report_content (lit "/Reports/report.md")
                         overwrite_mode)] |}.
Proof.
  apply (@rejected_upload_call_is_final nat (scripted rejects_upload) report_host 0 report
           reports None true fresh fresh _ 1 None (lit "invalid_access_token")).
  - reflexivity.
  - apply begins_first.
  - unfold MAX_RETRIES. lia.
  - reflexivity.
Defined.

(** ** Identity checks *)

Section Thrift.

Variable W : Type.
Variable backend : Backend W.
Variable host : Host.

Lemma identity_checks_app (xs ys : list Event) :
  identity_checks (xs ++ ys) = (identity_checks xs + identity_checks ys)%nat.
Proof.
  induction xs as [|[[] | s | a] xs IH]; cbn [app identity_checks]; lia.
Qed.

Lemma thrifty_ret (A : Type) (a : A) : thrifty (ret (W := W) a).
Proof. intros st. cbn. lia. Qed.

Lemma thrifty_raise (A : Type) (e : PyExn) : thrifty (raise (W := W) (A := A) e).
Proof. intros st. cbn. lia. Qed.

Lemma thrifty_bind (A B : Type) (m : Eng W A) (k : A -> Eng W B) :
  thrifty m -> (forall a, thrifty (k a)) -> thrifty (bind m k).
Proof.
  intros Hm Hk st. unfold bind. specialize (Hm st).
  destruct (m st) as [a st' | e st' | st']; cbn [final_state] in *; try exact Hm.
  specialize (Hk a st'). lia.
Qed.

Lemma thrifty_try_except (A : Type) (m : Eng W A) (h : PyExn -> Eng W A) :
  thrifty m -> (forall e, thrifty (h e)) -> thrifty (try_except m h).
Proof.
  intros Hm Hh st. unfold try_except. specialize (Hm st).
  destruct (m st) as [a st' | e st' | st']; cbn [final_state] in *; try exact Hm.
  specialize (Hh e st'). lia.
Qed.

Lemma thrifty_call (A : Type) (c : Call) (op : W -> Reply A * W) :
  identity_checks [Called c] = O -> thrifty (call c op).
Proof.
  intros Hc st. unfold call.
  destruct (op (world st)) as [[a | e] w]; cbn [final_state log];
    rewrite identity_checks_app, Hc; unfold pending; cbn [self]; lia.
Qed.

Lemma thrifty_emit (ev : Event) :
  identity_checks [ev] = O -> thrifty (emit (W := W) ev).
Proof.
  intros Hc st. unfold emit, log_event. cbn [final_state log].
  rewrite identity_checks_app, Hc. unfold pending. cbn [self]. lia.
Qed.

Lemma thrifty_client : thrifty (client backend).
Proof.
  intros st. destruct (_client (self st)) as [c | ] eqn:Hn.
  - unfold client. rewrite Hn. cbn. lia.
  - rewrite (client_unfold backend st Hn).
    destruct (credentials (self st)) as [c | ]; [ | cbn; lia].
    unfold bind, set_client, _verify_connection, try_except, bind, call, ret, raise.
    cbn [world log self].
    destruct (users_get_current_account backend (world st)) as [[a | e] w];
      [ | destruct e]; cbn [final_state log];
      rewrite identity_checks_app; unfold pending; cbn [self with_client _client];
      rewrite Hn; cbn [identity_checks]; lia.
Qed.

Lemma thrifty_open_rb (file_path : pystr) : thrifty (W := W) (open_rb host file_path).
Proof.
  unfold open_rb.
  destruct (node host file_path); first [apply thrifty_ret | apply thrifty_raise].
Qed.

Lemma thrifty_small (file_path dropbox_path : pystr) (overwrite : bool) :
  thrifty (_upload_small_file backend host file_path dropbox_path overwrite).
Proof.
  unfold _upload_small_file.
  apply thrifty_bind; [apply thrifty_open_rb | intros f].
  apply thrifty_bind; [apply thrifty_client | intros _].
  destruct (read_all f). apply thrifty_call. reflexivity.
Qed.

Lemma thrifty_chunks (fuel : nat) :
  forall f cursor commit file_size,
    thrifty (upload_chunks backend fuel f cursor commit file_size).
Proof.
  induction fuel as [|fuel IH]; intros f cursor commit file_size;
    cbn [upload_chunks]; destruct (tell f <? file_size);
    try apply thrifty_ret.
  - intros st. cbn. lia.
  - destruct (file_size - tell f <=? CHUNK_SIZE).
    + apply thrifty_bind; [apply thrifty_client | intros _].
      destruct (read _ f).
      apply thrifty_bind; [apply thrifty_call; reflexivity | intros; apply thrifty_ret].
    + apply thrifty_bind; [apply thrifty_client | intros _].
      destruct (read CHUNK_SIZE f).
      apply thrifty_bind; [apply thrifty_call; reflexivity | intros _]. apply IH.
Qed.

Lemma thrifty_large (fuel : nat) (file_path dropbox_path : pystr)
    (file_size : Z) (overwrite : bool) :
  thrifty (_upload_large_file backend host fuel file_path dropbox_path
             file_size overwrite).
Proof.
  unfold _upload_large_file.
  apply thrifty_bind; [apply thrifty_open_rb | intros f].
  apply thrifty_bind; [apply thrifty_client | intros _].
  destruct (read CHUNK_SIZE f).
  apply thrifty_bind; [apply thrifty_call; reflexivity | intros s].
  apply thrifty_bind; [apply thrifty_chunks | intros [md | ]];
    [apply thrifty_ret | apply thrifty_raise].
Qed.

Lemma thrifty_body (fuel : nat) (file_path dropbox_path : pystr)
    (file_size : Z) (overwrite : bool) :
  thrifty (attempt_body backend host fuel file_path dropbox_path file_size overwrite).
Proof.
  unfold attempt_body.
  apply thrifty_bind; [ | intros; apply thrifty_ret].
  destruct (choose_strategy file_size);
    [apply thrifty_small | apply thrifty_large].
Qed.

Lemma thrifty_handler (dropbox_path : pystr) (overwrite : bool) (attempt : Z)
    (e : PyExn) :
  thrifty (W := W) (on_failure host dropbox_path overwrite attempt e).
Proof.
  assert (Hs : forall a : PyExn, thrifty (W := W) (sleep RETRY_DELAY ;; ret a)).
  { intros a. apply thrifty_bind; [apply thrifty_emit; reflexivity | ].
    intros _. apply thrifty_ret. }
  destruct e; cbn [on_failure];
    repeat match goal with
           | |- context [if ?b then _ else _] => destruct b
           end;
    first [apply thrifty_raise | apply thrifty_ret | apply Hs].
Qed.

Lemma thrifty_loop (fuel : nat) (file_path dropbox_path : pystr) (file_size : Z)
    (overwrite : bool) (attempts : list Z) :
  forall last_error,
    thrifty (retry_loop backend host fuel file_path dropbox_path file_size overwrite
               attempts last_error).
Proof.
  induction attempts as [|a rest IH]; intros last_error; cbn [retry_loop].
  - apply thrifty_raise.
  - apply thrifty_bind; [apply thrifty_emit; reflexivity | intros _].
    apply thrifty_bind.
    + apply thrifty_try_except.
      * apply thrifty_bind; [apply thrifty_body | intros; apply thrifty_ret].
      * intros e. apply thrifty_bind; [apply thrifty_handler | intros; apply thrifty_ret].
    + intros [p | e]; [apply thrifty_ret | apply IH].
Qed.

Lemma thrifty_upload (fuel : nat) (local_path dropbox_folder : pystr)
    (filename : option pystr) (overwrite : bool) :
  thrifty (upload backend host fuel local_path dropbox_folder filename overwrite).
Proof.
  unfold upload.
  destruct (negb (path_exists _)); [apply thrifty_raise | ].
  destruct (negb (path_is_file _)); [apply thrifty_raise | ].
  apply thrifty_loop.
Qed.

Lemma upload_extends_log (fuel : nat) (local_path dropbox_folder : pystr)
    (filename : option pystr) (overwrite : bool) (st : State W) :
  exists evs,
    log (final_state (upload backend host fuel local_path dropbox_folder filename
                        overwrite st)) = log st ++ evs.
Proof.
  destruct (upload_cases backend host fuel local_path dropbox_folder filename
              overwrite st) as [[msg Hv] | Hl].
  - exists []. rewrite Hv. cbn. rewrite app_nil_r. reflexivity.
  - rewrite Hl.
    destruct (loop_events backend host fuel (_resolve_local_path host local_path)
                (canonical_remote_path host dropbox_folder filename
                   (_resolve_local_path host local_path))
                (stat_st_size (node host (_resolve_local_path host local_path)))
                overwrite (range 1 (MAX_RETRIES + 1)) None st) as [evs [H _]].
    exists evs. exact H.
Qed.

(** X16. A call of [upload] checks the identity at most once, and not at
    all when the uploader has its client object already; and it never
    drops the client object. *)
Theorem upload_checks_identity_at_most_once (fuel : nat)
    (local_path dropbox_folder : pystr) (filename : option pystr)
    (overwrite : bool) (st : State W) :
  exists evs,
    log (final_state (upload backend host fuel local_path dropbox_folder filename
                        overwrite st)) = log st ++ evs /\
    (identity_checks evs <= pending st)%nat /\
    (pending (final_state (upload backend host fuel local_path dropbox_folder
                             filename overwrite st)) <= pending st)%nat.
Proof.
  destruct (upload_extends_log fuel local_path dropbox_folder filename overwrite st)
    as [evs Hl].
  pose proof (thrifty_upload fuel local_path dropbox_folder filename overwrite st) as Ht.
  rewrite Hl, identity_checks_app in Ht.
  exists evs. repeat split; [exact Hl | lia | lia].
Qed.

End Thrift.

(** ** Termination *)

Section Halting.

Variable W : Type.
Variable backend : Backend W.
Variable host : Host.

Lemma halts_ret (A : Type) (a : A) : halts (ret (W := W) a).
Proof. intros st st'. discriminate. Qed.

Lemma halts_raise (A : Type) (e : PyExn) : halts (raise (W := W) (A := A) e).
Proof. intros st st'. discriminate. Qed.

Lemma halts_bind (A B : Type) (m : Eng W A) (k : A -> Eng W B) :
  halts m -> (forall a, halts (k a)) -> halts (bind m k).
Proof.
  intros Hm Hk st st'. unfold bind. specialize (Hm st).
  destruct (m st) as [a st1 | e st1 | st1]; [apply Hk | discriminate | ].
  exfalso. exact (Hm st1 eq_refl).
Qed.

Lemma halts_ret_bind (A B : Type) (a : A) (k : A -> Eng W B) :
  halts (k a) -> halts (bind (ret a) k).
Proof. intros H st st'. unfold bind, ret. apply H. Qed.

Lemma halts_try_except (A : Type) (m : Eng W A) (h : PyExn -> Eng W A) :
  halts m -> (forall e, halts (h e)) -> halts (try_except m h).
Proof.
  intros Hm Hh st st'. unfold try_except. specialize (Hm st).
  destruct (m st) as [a st1 | e st1 | st1]; [discriminate | apply Hh | ].
  exfalso. exact (Hm st1 eq_refl).
Qed.

Lemma halts_call (A : Type) (c : Call) (op : W -> Reply A * W) : halts (call c op).
Proof.
  intros st st'. unfold call. destruct (op (world st)) as [[a | e] w]; discriminate.
Qed.

Lemma halts_emit (ev : Event) : halts (emit (W := W) ev).
Proof. intros st st'. discriminate. Qed.

Lemma halts_client : halts (client backend).
Proof.
  assert (Hnew : forall c, halts (set_client c ;; _verify_connection backend)).
  { intros c. apply halts_bind; [intros st st'; discriminate | intros _].
    unfold _verify_connection. apply halts_try_except.
    - apply halts_bind; [apply halts_call | intros; apply halts_ret].
    - intros e. destruct e; apply halts_raise. }
  intros st st'. destruct (_client (self st)) as [c | ] eqn:Hn.
  - unfold client. rewrite Hn. discriminate.
  - rewrite (client_unfold backend st Hn).
    destruct (credentials (self st)); [apply Hnew | discriminate].
Qed.

Lemma halts_open_rb (file_path : pystr) : halts (W := W) (open_rb host file_path).
Proof.
  unfold open_rb.
  destruct (node host file_path); first [apply halts_ret | apply halts_raise].
Qed.

Lemma halts_small (file_path dropbox_path : pystr) (overwrite : bool) :
  halts (_upload_small_file backend host file_path dropbox_path overwrite).
Proof.
  unfold _upload_small_file.
  apply halts_bind; [apply halts_open_rb | intros f].
  apply halts_bind; [apply halts_client | intros _].
  destruct (read_all f). apply halts_call.
Qed.

(** While [tell] and the unread bytes add up to the file size, the loop
    needs one unit of fuel per chunk that is left. *)
Lemma halts_chunks (commit : CommitInfo) (s : Z) (fuel : nat) :
  forall f cursor,
    tell f + Z.of_nat (List.length (unread f)) = s ->
    s - tell f <= CHUNK_SIZE * Z.of_nat fuel ->
    halts (upload_chunks backend fuel f cursor commit s).
Proof.
  induction fuel as [|fuel IH]; intros f cursor Hinv Hfuel; cbn [upload_chunks].
  - destruct (Z.ltb_spec (tell f) s); [unfold CHUNK_SIZE in *; lia | apply halts_ret].
  - destruct (Z.ltb_spec (tell f) s) as [Hlt | Hge]; [ | apply halts_ret].
    destruct (Z.leb_spec (s - tell f) CHUNK_SIZE) as [Hle | Hgt].
    + apply halts_bind; [apply halts_client | intros _].
      destruct (read _ f).
      apply halts_bind; [apply halts_call | intros; apply halts_ret].
    + apply halts_bind; [apply halts_client | intros _].
      destruct (read CHUNK_SIZE f) as [data f'] eqn:R.
      apply halts_bind; [apply halts_call | intros _].
      destruct (read_invariant R) as [_ [Hi Hn]].
      destruct (read_spec R) as [_ [_ Ht]].
      apply IH; [lia | ].
      rewrite Ht, Hn; unfold CHUNK_SIZE in *; lia.
Qed.

Lemma halts_handler (dropbox_path : pystr) (overwrite : bool) (attempt : Z)
    (e : PyExn) :
  halts (W := W) (on_failure host dropbox_path overwrite attempt e).
Proof.
  intros st st'.
  destruct (handler_kinds host dropbox_path overwrite attempt e st)
    as [[H _] | [[H _] | [e' [H _]]]]; rewrite H; discriminate.
Qed.

Lemma halts_loop (fuel : nat) (file_path dropbox_path : pystr) (file_size : Z)
    (overwrite : bool) (attempts : list Z) :
  halts (attempt_body backend host fuel file_path dropbox_path file_size overwrite) ->
  forall last_error,
    halts (retry_loop backend host fuel file_path dropbox_path file_size overwrite
             attempts last_error).
Proof.
  intros Hb. induction attempts as [|a rest IH]; intros last_error; cbn [retry_loop].
  - apply halts_raise.
  - apply halts_bind; [apply halts_emit | intros _].
    apply halts_bind.
    + apply halts_try_except.
      * apply halts_bind; [exact Hb | intros; apply halts_ret].
      * intros e. apply halts_bind; [apply halts_handler | intros; apply halts_ret].
    + intros [p | e]; [apply halts_ret | apply IH].
Qed.

(** X17. [upload] terminates whatever the backend replies: with any fuel
    for a file of at most 150 MiB, and with fuel for every chunk for a
    larger file whose content has the size that [stat] reported. *)
Theorem upload_terminates (fuel : nat) (local_path dropbox_folder : pystr)
    (filename : option pystr) (overwrite : bool) (st st' : State W)
    (st_size : Z) (content : bytes) :
  node host (_resolve_local_path host local_path) = RegularFile st_size content ->
  st_size <= 150 * 1024 * 1024 \/
  (Z.of_nat (List.length content) = st_size /\
   (Z.to_nat (st_size / CHUNK_SIZE) <= fuel)%nat) ->
  upload backend host fuel local_path dropbox_folder filename overwrite st <>
  OutOfFuel st'.
Proof.
  intros Hnode Hsize. unfold upload. rewrite Hnode.
  cbn [path_exists path_is_file negb stat_st_size].
  apply halts_loop. unfold attempt_body, choose_strategy.
  apply halts_bind; [ | intros; apply halts_ret].
  destruct (Z.leb_spec st_size (150 * 1024 * 1024)) as [Hle | Hgt];
    [apply halts_small | ].
  destruct Hsize as [Hle | [Hlen Hfuel]]; [lia | ].
  unfold _upload_large_file, open_rb. rewrite Hnode.
  apply halts_ret_bind.
  apply halts_bind; [apply halts_client | intros _].
  destruct (read CHUNK_SIZE {| unread := content; tell := 0 |}) as [first f1] eqn:R.
  apply halts_bind; [apply halts_call | intros r].
  apply halts_bind;
    [ | intros [md | ]; [apply halts_ret | apply halts_raise]].
  destruct (read_invariant R) as [_ [Hi Hn]].
  destruct (read_spec R) as [_ [_ Ht]].
  cbn [unread tell] in *.
  assert (Hfirst : Z.of_nat (List.length first) = CHUNK_SIZE)
    by (apply Hn; unfold CHUNK_SIZE; lia).
  apply halts_chunks; [lia | ].
  rewrite Ht, Hfirst.
  assert (Hdiv : st_size < CHUNK_SIZE * (st_size / CHUNK_SIZE) + CHUNK_SIZE).
  { pose proof (Z.mod_pos_bound st_size CHUNK_SIZE ltac:(unfold CHUNK_SIZE; lia)).
    pose proof (Z.div_mod st_size CHUNK_SIZE ltac:(unfold CHUNK_SIZE; lia)). lia. }
  assert (Hq : st_size / CHUNK_SIZE <= Z.of_nat fuel).
  { assert (0 <= st_size / CHUNK_SIZE)
      by (apply Z.div_pos; unfold CHUNK_SIZE; lia).
    lia. }
  unfold CHUNK_SIZE in *. nia.
Qed.

End Halting.

(** ** More on the two upload paths *)

Section MorePaths.

Variable W : Type.
Variable backend : Backend W.
Variable host : Host.

Local Notation "'accepts_sessions'" := (accepts_sessions backend).

(** The loop with its cursor: the cursor of every call carries the bytes
    sent before it. *)
Lemma chunks_offsets (commit : CommitInfo) (s : Z) (sid : pystr) (fuel : nat) :
  accepts_sessions ->
  forall f st,
    _client (self st) <> None ->
    tell f + Z.of_nat (List.length (unread f)) = s ->
    tell f < s ->
    s - tell f <= CHUNK_SIZE * Z.of_nat fuel ->
    exists appends last md st',
      upload_chunks backend fuel f {| cursor_session_id := sid; offset := tell f |}
        commit s st = Ret (Some md) st' /\
      log st' =
        log st ++ append_events appends ++
        [Called (SessionFinish last
                   {| cursor_session_id := sid;
                      offset := tell f +
                                Z.of_nat (List.length (List.concat (List.map fst appends))) |}
                   commit)] /\
      cursors_track sid (tell f) appends /\
      full_chunks appends /\
      List.concat (List.map fst appends) ++ last = unread f.
Proof.
  intros [_ [Happend Hfinish]].
  induction fuel as [|fuel IH]; intros f st Hc Hinv Hlt Hfuel.
  - unfold CHUNK_SIZE in *. lia.
  - cbn [upload_chunks]. pose proof Hlt as Hlt'. apply Z.ltb_lt in Hlt'. rewrite Hlt'.
    destruct (Z.leb_spec (s - tell f) CHUNK_SIZE) as [Hle | Hgt].
    + unfold bind at 1. rewrite client_connected by exact Hc.
      destruct (read (s - tell f) f) as [data f'] eqn:R.
      destruct (Hfinish data {| cursor_session_id := sid; offset := tell f |} commit
                  (world st)) as [md [w' Hw]].
      unfold bind. erewrite call_returns by exact Hw. cbn [ret].
      exists [], data, md. eexists. split; [reflexivity | ].
      cbn [log append_events List.map app List.concat List.length cursors_track].
      rewrite Z.add_0_r.
      repeat split; [constructor | ].
      destruct (read_spec R) as [Hd _].
      rewrite Hd. apply List.firstn_all2. lia.
    + unfold bind at 1. rewrite client_connected by exact Hc.
      destruct (read CHUNK_SIZE f) as [data f'] eqn:R.
      destruct (Happend data {| cursor_session_id := sid; offset := tell f |}
                  (world st)) as [w' Hw].
      unfold bind. erewrite call_returns by exact Hw.
      destruct (read_invariant R) as [Hs [Hi Hn]].
      destruct (read_spec R) as [_ [_ Ht]].
      assert (Hlen : Z.of_nat (List.length data) = CHUNK_SIZE).
      { apply Hn. unfold CHUNK_SIZE in *. lia. }
      cbn [cursor_session_id].
      edestruct (IH f' {| self := self st; world := w';
                          log := log st ++
                                 [Called (SessionAppend data
                                            {| cursor_session_id := sid;
                                               offset := tell f |})] |})
        as [appends [last [md [st' [Hrun [Hlog [Htrack [Hfull Hcat]]]]]]]].
      * exact Hc.
      * lia.
      * rewrite Ht, Hlen. lia.
      * rewrite Ht, Hlen. unfold CHUNK_SIZE in *. lia.
      * exists ((data, {| cursor_session_id := sid; offset := tell f |}) :: appends),
          last, md, st'.
        split; [exact Hrun | ].
        split.
        { rewrite Hlog. cbn [log append_events List.map fst snd List.concat].
          rewrite <- app_assoc. cbn [app].
          replace (tell f +
                   Z.of_nat (List.length (data ++ List.concat (List.map fst appends))))
            with (tell f' + Z.of_nat (List.length (List.concat (List.map fst appends))))
            by (rewrite List.length_app, Ht; lia).
          reflexivity. }
        split; [cbn [cursors_track fst snd]; split; [reflexivity | ];
                rewrite <- Ht; exact Htrack | ].
        split; [constructor; [exact Hlen | exact Hfull] | ].
        cbn [List.map List.concat fst]. rewrite <- app_assoc, Hcat. symmetry. exact Hs.
Qed.

(** X18. The session of any file larger than one chunk whose content
    has the size given: the start call carries the first 4 MiB, and the
    cursor of every later call carries the session id that the start call
    returned and, as its offset, the number of bytes sent before it. *)
Theorem session_cursors_track_offsets (fuel : nat) (file_path dropbox_path : pystr)
    (s : Z) (overwrite : bool) (st_size : Z) (content : bytes) (st st1 : State W)
    (r : UploadSessionStartResult) (w : W) :
  node host file_path = RegularFile st_size content ->
  CHUNK_SIZE < s ->
  Z.of_nat (List.length content) = s ->
  accepts_sessions ->
  client backend st = Ret tt st1 ->
  (Z.to_nat (s / CHUNK_SIZE) <= fuel)%nat ->
  files_upload_session_start backend (List.firstn (Z.to_nat CHUNK_SIZE) content)
    (world st1) = (Returns r, w) ->
  exists appends last md st',
    _upload_large_file backend host fuel file_path dropbox_path s overwrite st =
      Ret md st' /\
    log st' =
      log st1 ++
      Called (SessionStart (List.firstn (Z.to_nat CHUNK_SIZE) content)) ::
      append_events appends ++
      [Called (SessionFinish last
                 {| cursor_session_id := session_id r;
                    offset := CHUNK_SIZE +
                              Z.of_nat (List.length (List.concat (List.map fst appends))) |}
                 {| commit_path := dropbox_path;
                    commit_mode := write_mode overwrite |})] /\
    cursors_track (session_id r) CHUNK_SIZE appends /\
    full_chunks appends /\
    List.firstn (Z.to_nat CHUNK_SIZE) content ++
      List.concat (List.map fst appends) ++ last = content.
Proof.
  intros Hnode Hbig Hlen Hacc Hclient Hfuel Hw.
  destruct (read CHUNK_SIZE {| unread := content; tell := 0 |}) as [first f1] eqn:R.
  destruct (read_invariant R) as [Hs [Hi Hn]].
  destruct (read_spec R) as [Hd [_ Ht]].
  cbn [unread tell] in *.
  assert (Hfirst : Z.of_nat (List.length first) = CHUNK_SIZE).
  { apply Hn. unfold CHUNK_SIZE in *. lia. }
  assert (Htell : tell f1 = CHUNK_SIZE) by lia.
  assert (Hc : _client (self st1) <> None)
    by (eapply client_connects; eassumption).
  rewrite <- Hd in *.
  edestruct (@chunks_offsets
               {| commit_path := dropbox_path; commit_mode := write_mode overwrite |}
               s (session_id r) fuel Hacc f1
               {| self := self st1; world := w;
                  log := log st1 ++ [Called (SessionStart first)] |})
    as [appends [last [md [st' [Hrun [Hlog [Htrack [Hfull Hcat]]]]]]]].
  - exact Hc.
  - lia.
  - lia.
  - rewrite Htell.
    assert (Hdiv : s < CHUNK_SIZE * (s / CHUNK_SIZE) + CHUNK_SIZE).
    { pose proof (Z.mod_pos_bound s CHUNK_SIZE ltac:(unfold CHUNK_SIZE; lia)).
      pose proof (Z.div_mod s CHUNK_SIZE ltac:(unfold CHUNK_SIZE; lia)). lia. }
    assert (Hq : s / CHUNK_SIZE <= Z.of_nat fuel).
    { assert (0 <= s / CHUNK_SIZE)
        by (apply Z.div_pos; unfold CHUNK_SIZE in *; lia).
      lia. }
    unfold CHUNK_SIZE in *. nia.
  - exists appends, last, md, st'.
    rewrite Htell in *.
    split.
    + unfold _upload_large_file, open_rb. rewrite Hnode.
      unfold bind at 1. cbn [ret]. unfold bind at 1. rewrite Hclient.
      rewrite R. unfold bind at 1. erewrite call_returns by exact Hw.
      rewrite Htell. unfold bind. rewrite Hrun. reflexivity.
    + split; [rewrite Hlog; cbn [log]; rewrite <- app_assoc; reflexivity | ].
      split; [exact Htrack | ]. split; [exact Hfull | ].
      rewrite Hcat. symmetry. exact Hs.
Qed.

(** X19. Called for a file of at most one chunk, the large-file path
    sends the whole content in the start call and then raises the
    "Unexpected end of file" error: no finish call is made and nothing is
    committed. *)
Theorem large_path_on_small_file (fuel : nat) (file_path dropbox_path : pystr)
    (s : Z) (overwrite : bool) (st_size : Z) (content : bytes) (st st1 : State W)
    (r : UploadSessionStartResult) (w : W) :
  node host file_path = RegularFile st_size content ->
  Z.of_nat (List.length content) = s ->
  s <= CHUNK_SIZE ->
  client backend st = Ret tt st1 ->
  files_upload_session_start backend content (world st1) = (Returns r, w) ->
  _upload_large_file backend host fuel file_path dropbox_path s overwrite st =
  Raise (UploadError (lit "Unexpected end of file during chunked upload"))
    {| self := self st1; world := w;
       log := log st1 ++ [Called (SessionStart content)] |}.
Proof.
  intros Hnode Hlen Hs Hclient Hw.
  assert (R : read CHUNK_SIZE {| unread := content; tell := 0 |} =
              (content, {| unread := []; tell := s |})).
  { unfold read. cbn [unread tell].
    rewrite List.firstn_all2, List.skipn_all2 by lia.
    rewrite Hlen. reflexivity. }
  unfold _upload_large_file, open_rb. rewrite Hnode.
  unfold bind at 1. cbn [ret]. unfold bind at 1. rewrite Hclient.
  rewrite R. unfold bind at 1. erewrite call_returns by exact Hw.
  cbn [tell]. unfold bind.
  assert (Hloop : forall cursor commit st2,
             upload_chunks backend fuel {| unread := []; tell := s |} cursor commit s st2 =
             Ret None st2).
  { intros cursor commit st2. destruct fuel; cbn [upload_chunks tell];
      rewrite Z.ltb_irrefl; reflexivity. }
  rewrite Hloop. reflexivity.
Qed.

(** The loop over a file that is more than one chunk short of the size
    given appends for ever. *)
Lemma chunks_never_finish (commit : CommitInfo) (s : Z) (fuel : nat) :
  accepts_sessions ->
  forall f cursor st,
    _client (self st) <> None ->
    0 <= tell f ->
    tell f + Z.of_nat (List.length (unread f)) + CHUNK_SIZE < s ->
    exists st', upload_chunks backend fuel f cursor commit s st = OutOfFuel st'.
Proof.
  intros [_ [Happend _]].
  induction fuel as [|fuel IH]; intros f cursor st Hc H0 Hshort;
    cbn [upload_chunks];
    (replace (tell f <? s) with true
       by (symmetry; apply Z.ltb_lt; unfold CHUNK_SIZE in *; lia)).
  - eexists. reflexivity.
  - replace (s - tell f <=? CHUNK_SIZE) with false
      by (symmetry; apply Z.leb_gt; lia).
    unfold bind at 1. rewrite client_connected by exact Hc.
    destruct (read CHUNK_SIZE f) as [data f'] eqn:R.
    destruct (Happend data cursor (world st)) as [w' Hw].
    unfold bind. erewrite call_returns by exact Hw.
    destruct (read_invariant R) as [_ [Hi _]].
    destruct (read_spec R) as [_ [_ Ht]].
    apply IH; [exact Hc | lia | lia].
Qed.

(** X20. When the content of the file is more than one chunk shorter
    than the size given (the file shrank after [stat]), the large-file
    path never finishes: with a backend that serves every call it runs out
    of every amount of fuel. *)
Theorem truncated_file_never_finishes (fuel : nat) (file_path dropbox_path : pystr)
    (s : Z) (overwrite : bool) (st_size : Z) (content : bytes) (st st1 : State W) :
  node host file_path = RegularFile st_size content ->
  Z.of_nat (List.length content) + CHUNK_SIZE < s ->
  accepts_sessions ->
  client backend st = Ret tt st1 ->
  exists st',
    _upload_large_file backend host fuel file_path dropbox_path s overwrite st =
    OutOfFuel st'.
Proof.
  intros Hnode Hshort Hacc Hclient.
  assert (Hc : _client (self st1) <> None)
    by (eapply client_connects; eassumption).
  destruct (read CHUNK_SIZE {| unread := content; tell := 0 |}) as [first f1] eqn:R.
  destruct (read_invariant R) as [_ [Hi _]].
  destruct (read_spec R) as [_ [_ Ht]].
  cbn [unread tell] in *.
  destruct Hacc as [Hstart Hrest].
  destruct (Hstart first (world st1)) as [r [w Hw]].
  edestruct (@chunks_never_finish
               {| commit_path := dropbox_path; commit_mode := write_mode overwrite |}
               s fuel (conj Hstart Hrest) f1
               {| cursor_session_id := session_id r; offset := tell f1 |}
               {| self := self st1; world := w;
                  log := log st1 ++ [Called (SessionStart first)] |})
    as [st' Hrun].
  - exact Hc.
  - lia.
  - lia.
  - exists st'.
    unfold _upload_large_file, open_rb. rewrite Hnode.
    unfold bind at 1. cbn [ret]. unfold bind at 1. rewrite Hclient.
    rewrite R. unfold bind at 1. erewrite call_returns by exact Hw.
    unfold bind. rewrite Hrun. reflexivity.
Qed.

(** X21. A file of at most 150 MiB with a client that connects and a
    backend that serves the upload call: [upload] sends the whole content
    in one call, to the canonical remote path, in overwrite mode or in add
    mode as the flag says, and returns the path that the backend
    reports. *)
Theorem small_file_first_attempt (fuel : nat) (local_path dropbox_folder : pystr)
    (filename : option pystr) (overwrite : bool) (st_size : Z) (content : bytes)
    (st st1 : State W) (metadata : FileMetadata) (w : W) :
  let dropbox_path :=
    canonical_remote_path host dropbox_folder filename
      (_resolve_local_path host local_path) in
  let mode := if overwrite then overwrite_mode else add_mode in
  node host (_resolve_local_path host local_path) = RegularFile st_size content ->
  st_size <= 150 * 1024 * 1024 ->
  client backend (log_event (Attempt 1) st) = Ret tt st1 ->
  files_upload backend content dropbox_path mode (world st1) = (Returns metadata, w) ->
  upload backend host fuel local_path dropbox_folder filename overwrite st =
  Ret (path_display metadata)
    {| self := self st1; world := w;
       log := log st1 ++ [Called (FilesUpload content dropbox_path mode)] |}.
Proof.
  intros dropbox_path mode Hnode Hsize Hclient Hw.
  unfold upload. rewrite Hnode. cbn [path_exists path_is_file negb stat_st_size].
  rewrite (@range_cons 1 (MAX_RETRIES + 1)) by (unfold MAX_RETRIES; lia).
  apply loop_returns.
  unfold attempt_body, choose_strategy.
  apply Z.leb_le in Hsize. rewrite Hsize.
  unfold _upload_small_file, open_rb. rewrite Hnode.
  unfold bind at 1. unfold bind at 1. cbn [ret]. unfold bind at 1. rewrite Hclient.
  cbn [read_all unread]. unfold bind.
  fold dropbox_path. change (write_mode overwrite) with mode.
  erewrite call_returns by exact Hw. reflexivity.
Qed.

End MorePaths.

(** ** The life cycle and the callers *)

Section LifeCycleFacts.

Variable W : Type.
Variable backend : Backend W.
Variable client_close : W -> Reply unit * W.
Variable host : Host.
Variable environ : pystr -> option pystr.
Variable append_line : pystr -> pystr -> option PyExn.

Local Notation "'closes_quietly'" := (closes_quietly client_close).

(** With a client whose [close] returns, closing releases the client
    object, keeps the log, and does nothing when there is no client. *)
Lemma close_releases (st : State W) :
  closes_quietly ->
  exists st',
    close client_close st = Ret tt st' /\
    log st' = log st /\
    _client (self st') = None /\
    (_client (self st) = None -> st' = st).
Proof.
  intros Hq. unfold close. destruct (_client (self st)) eqn:Hc.
  - destruct (Hq (world st)) as [w' Hw]. rewrite Hw.
    eexists. repeat split. discriminate.
  - exists st. repeat split. exact Hc.
Qed.

Lemma with_uploader_releases (A : Type) (block : Eng W A) (st : State W) :
  closes_quietly ->
  match block st with
  | Ret a st' =>
      exists st'', with_uploader client_close block st = Ret a st'' /\
                   log st'' = log st' /\ _client (self st'') = None /\
                   (_client (self st') = None -> st'' = st')
  | Raise e st' =>
      exists st'', with_uploader client_close block st = Raise e st'' /\
                   log st'' = log st' /\ _client (self st'') = None /\
                   (_client (self st') = None -> st'' = st')
  | OutOfFuel st' => with_uploader client_close block st = OutOfFuel st'
  end.
Proof.
  intros Hq. unfold with_uploader.
  destruct (block st) as [a st' | e st' | st']; [ | | reflexivity];
    destruct (close_releases st' Hq) as [st'' [Hc H]];
    exists st''; unfold bind; rewrite Hc; (split; [reflexivity | exact H]).
Qed.

(** X22. [upload_file] returns or raises exactly what [upload] does on a
    new uploader, and leaves no client object behind; when no client was
    created (as for a missing file), it does not call [close] either. *)
Theorem upload_file_releases_the_client (fuel : nat) (local_path dropbox_folder : pystr)
    (access_token filename : option pystr) (overwrite : bool) (st : State W) :
  closes_quietly ->
  match upload backend host fuel local_path dropbox_folder filename overwrite
          (construct environ access_token st) with
  | Ret p st' =>
      exists st'',
        upload_file backend client_close host environ fuel local_path dropbox_folder
          access_token filename overwrite st = Ret p st'' /\
        log st'' = log st' /\ _client (self st'') = None /\
        (_client (self st') = None -> st'' = st')
  | Raise e st' =>
      exists st'',
        upload_file backend client_close host environ fuel local_path dropbox_folder
          access_token filename overwrite st = Raise e st'' /\
        log st'' = log st' /\ _client (self st'') = None /\
        (_client (self st') = None -> st'' = st')
  | OutOfFuel st' =>
      upload_file backend client_close host environ fuel local_path dropbox_folder
        access_token filename overwrite st = OutOfFuel st'
  end.
Proof.
  intros Hq. unfold upload_file.
  exact (with_uploader_releases
           (upload backend host fuel local_path dropbox_folder filename overwrite)
           (construct environ access_token st) Hq).
Qed.

(** The loop over the files catches every exception, adds one entry per
    file in order, and is as thrifty with identity checks as [upload]. *)
Lemma upload_each_results (fuel : nat) (folder : pystr) (files : list pystr) :
  forall results st,
    match upload_each backend host fuel files folder results st with
    | Ret rs st' =>
        List.map result_file rs = List.map result_file results ++ files
    | Raise _ _ => False
    | OutOfFuel _ => True
    end.
Proof.
  induction files as [|f rest IH]; intros results st; cbn [upload_each].
  - cbn. rewrite app_nil_r. reflexivity.
  - unfold bind at 1. unfold try_except, bind at 1.
    destruct (upload backend host fuel f folder None true st) as [p st1 | e st1 | st1];
      cbn [ret]; [ | | exact I].
    + specialize (IH (results ++ [Uploaded f p]) st1).
      destruct (upload_each _ _ _ _ _ _ _); [ | exact IH | exact I].
      rewrite IH, List.map_app, <- app_assoc. reflexivity.
    + specialize (IH (results ++ [NotUploaded f (exn_str e)]) st1).
      destruct (upload_each _ _ _ _ _ _ _); [ | exact IH | exact I].
      rewrite IH, List.map_app, <- app_assoc. reflexivity.
Qed.

(** Each entry of the list is what [upload] did for its file. *)
Lemma upload_each_outcomes (fuel : nat) (folder : pystr) (files : list pystr) :
  forall results st,
    match upload_each backend host fuel files folder results st with
    | Ret rs st' =>
        exists new, rs = results ++ new /\
                    outcomes backend host fuel folder st files new st'
    | _ => True
    end.
Proof.
  induction files as [|f rest IH]; intros results st; cbn [upload_each].
  - exists []. cbn. rewrite app_nil_r. split; [reflexivity | constructor].
  - unfold bind at 1. unfold try_except, bind at 1.
    destruct (upload backend host fuel f folder None true st)
      as [p st1 | e st1 | st1] eqn:E; cbn [ret]; [ | | exact I].
    + specialize (IH (results ++ [Uploaded f p]) st1).
      destruct (upload_each _ _ _ _ _ _ _); [ | exact I | exact I].
      destruct IH as [new [Hr Ho]]. exists (Uploaded f p :: new). split.
      * rewrite Hr, <- app_assoc. reflexivity.
      * eapply outcomes_uploaded; eassumption.
    + specialize (IH (results ++ [NotUploaded f (exn_str e)]) st1).
      destruct (upload_each _ _ _ _ _ _ _); [ | exact I | exact I].
      destruct IH as [new [Hr Ho]]. exists (NotUploaded f (exn_str e) :: new). split.
      * rewrite Hr, <- app_assoc. reflexivity.
      * eapply outcomes_failed; eassumption.
Qed.

Lemma thrifty_upload_each (fuel : nat) (folder : pystr) (files : list pystr) :
  forall results, thrifty (upload_each backend host fuel files folder results).
Proof.
  induction files as [|f rest IH]; intros results; cbn [upload_each].
  - apply thrifty_ret.
  - apply thrifty_bind; [ | intros r; apply IH].
    apply thrifty_try_except.
    + apply thrifty_bind; [apply thrifty_upload | intros; apply thrifty_ret].
    + intros e. apply thrifty_ret.
Qed.

Lemma upload_each_extends_log (fuel : nat) (folder : pystr) (files : list pystr) :
  forall results st,
  exists evs,
    log (final_state (upload_each backend host fuel files folder results st)) =
    log st ++ evs.
Proof.
  induction files as [|f rest IH]; intros results st; cbn [upload_each].
  - exists []. cbn. rewrite app_nil_r. reflexivity.
  - unfold bind at 1. unfold try_except, bind at 1.
    destruct (upload_extends_log backend host fuel f folder None true st) as [evs Hl].
    destruct (upload backend host fuel f folder None true st) as [p st1 | e st1 | st1];
      cbn [ret final_state] in *.
    + destruct (IH (results ++ [Uploaded f p]) st1) as [evs' Hl'].
      exists (evs ++ evs'). rewrite Hl', Hl, app_assoc. reflexivity.
    + destruct (IH (results ++ [NotUploaded f (exn_str e)]) st1) as [evs' Hl'].
      exists (evs ++ evs'). rewrite Hl', Hl, app_assoc. reflexivity.
    + exists evs. exact Hl.
Qed.

(** X23. [upload_multiple_files] over one uploader: a failure of one
    file does not stop the others and is never raised; when the batch
    returns, its list has one entry per file, in order, and the entry of
    a file holds the path that [upload] returned for it or the text of
    the exception that [upload] raised for it, each call starting where
    the one before ended; the identity is checked at most once for the
    whole batch; and no client object is left behind. *)
Theorem batch_shares_one_connection (fuel : nat) (files : list pystr)
    (folder : pystr) (st : State W) :
  closes_quietly ->
  match upload_multiple_files backend client_close host environ fuel files folder st with
  | Ret results st' =>
      List.map result_file results = files /\
      (exists st1,
         outcomes backend host fuel folder (construct environ None st) files results st1 /\
         log st' = log st1) /\
      _client (self st') = None /\
      exists evs, log st' = log st ++ evs /\ (identity_checks evs <= 1)%nat
  | Raise _ _ => False
  | OutOfFuel _ => True
  end.
Proof.
  intros Hq. unfold upload_multiple_files.
  pose proof (upload_each_outcomes fuel folder files [] (construct environ None st)) as Ho.
  pose proof (with_uploader_releases (upload_each backend host fuel files folder [])
                (construct environ None st) Hq) as Hw.
  pose proof (upload_each_results fuel folder files [] (construct environ None st)) as Hr.
  pose proof (thrifty_upload_each fuel folder files [] (construct environ None st)) as Ht.
  destruct (upload_each_extends_log fuel folder files [] (construct environ None st))
    as [evs He].
  destruct (upload_each backend host fuel files folder [] (construct environ None st))
    as [rs st1 | e st1 | st1]; cbn [final_state] in *.
  - destruct Hw as [st2 [Hrun [Hlog [Hnone _]]]]. rewrite Hrun.
    destruct Ho as [new [Hnew Ho]]. cbn [app] in Hnew. subst new.
    split; [exact Hr | split; [exists st1; split; assumption | split; [exact Hnone | ]]].
    exists evs. rewrite Hlog, He. split; [reflexivity | ].
    rewrite He, identity_checks_app in Ht.
    unfold pending in Ht. cbn [construct self log __init__ _client] in Ht. lia.
  - contradiction.
  - rewrite Hw. exact I.
Qed.

(** X24. The exit code of [main]: a path that does not designate a
    regular file gives 1 before anything else happens; otherwise, with a
    client whose [close] returns and an output file that can be written,
    the code is 0 when [upload] returns and 1, 2 or 3 when it raises
    [FileNotFoundError], [AuthenticationError] or [UploadError]; no other
    code is given. *)
Theorem main_exit_codes (fuel : nat) (args : Args) (st : State W) :
  (path_is_file (node host (path_resolve host (args_file args))) = false ->
   main backend client_close host environ append_line fuel args st = Ret 1 st) /\
  (path_is_file (node host (path_resolve host (args_file args))) = true ->
   closes_quietly ->
   (forall f line, append_line f line = None) ->
   match upload backend host fuel (args_file args) (args_folder args)
           (args_filename args) (negb (args_no_overwrite args))
           (construct environ (args_token args) st) with
   | Ret _ _ =>
       exists st', main backend client_close host environ append_line fuel args st =
                   Ret 0 st'
   | Raise e _ =>
       exists st', main backend client_close host environ append_line fuel args st =
                   Ret (exit_code e) st' /\
                   (exit_code e = 1 \/ exit_code e = 2 \/ exit_code e = 3)
   | OutOfFuel st' =>
       main backend client_close host environ append_line fuel args st = OutOfFuel st'
   end).
Proof.
  split.
  - intros Hf. unfold main.
    destruct (node host (path_resolve host (args_file args)));
      cbn [path_exists path_is_file negb] in *; [reflexivity | reflexivity | discriminate].
  - intros Hf Hq Ha. unfold main.
    destruct (node host (path_resolve host (args_file args))) eqn:En;
      cbn [path_exists path_is_file negb] in *; try discriminate.
    pose proof (with_uploader_releases
                  (upload backend host fuel (args_file args) (args_folder args)
                     (args_filename args) (negb (args_no_overwrite args)))
                  (construct environ (args_token args) st) Hq) as Hw.
    pose proof (fun st' e =>
                  @upload_lets_out W backend host fuel (args_file args)
                    (args_folder args) (args_filename args)
                    (negb (args_no_overwrite args))
                    (construct environ (args_token args) st) st' e) as Hk.
    unfold try_except, bind.
    destruct (upload backend host fuel (args_file args) (args_folder args)
                (args_filename args) (negb (args_no_overwrite args))
                (construct environ (args_token args) st)) as [p st1 | e st1 | st1].
    + destruct Hw as [st2 [Hrun _]]. rewrite Hrun.
      destruct (truthy (environ (lit "GITHUB_OUTPUT"))) as [output | ].
      * rewrite Ha. eexists. reflexivity.
      * eexists. reflexivity.
    + destruct Hw as [st2 [Hrun _]]. rewrite Hrun.
      exists st2. split; [reflexivity | ].
      destruct (Hk st1 e eq_refl) as [[m ->] | [[m ->] | [m ->]]]; cbn; auto.
    + rewrite Hw. reflexivity.
Qed.

End LifeCycleFacts.

(** ** More concrete runs *)

Lemma credential_precedence_witness :
  _client (self (final_state
                   (client serving (construct token_environ (Some (lit "cli-token")) fresh)))) =
    Some (Dropbox_token (lit "cli-token")) /\
  _client (self (final_state (client serving (construct token_environ None fresh)))) =
    Some (Dropbox_token (lit "env-token")).
Proof.
  split.
  - apply (proj2 (credential_precedence serving token_environ (Some (lit "cli-token"))
                    fresh)).
    + left. reflexivity.
    + reflexivity.
  - apply (proj2 (proj2 (credential_precedence serving token_environ None fresh)
                    (or_introl eq_refl)) eq_refl).
Defined.

Lemma upload_terminates_witness :
  upload serving report_host 0 report reports None true fresh <> OutOfFuel fresh.
Proof.
  apply (@upload_terminates nat serving report_host 0 report reports None true fresh
           fresh 3 report_content).
  - reflexivity.
  - left. lia.
Defined.

Lemma serving_accepts_sessions : accepts_sessions serving.
Proof. repeat split; intros; repeat eexists. Qed.

Lemma session_cursors_witness :
  exists appends last md st',
    _upload_large_file serving big_host 37 report (lit "/Reports/report.md")
      big_size true fresh = Ret md st' /\
    log st' =
      log connected ++
      Called (SessionStart (List.firstn (Z.to_nat CHUNK_SIZE) big_content)) ::
      append_events appends ++
      [Called (SessionFinish last
                 {| cursor_session_id := lit "sid";
                    offset := CHUNK_SIZE +
                              Z.of_nat (List.length (List.concat (List.map fst appends))) |}
                 {| commit_path := lit "/Reports/report.md";
                    commit_mode := write_mode true |})] /\
    cursors_track (lit "sid") CHUNK_SIZE appends /\
    full_chunks appends /\
    List.firstn (Z.to_nat CHUNK_SIZE) big_content ++
      List.concat (List.map fst appends) ++ last = big_content.
Proof.
  assert (Hlen : Z.of_nat (List.length big_content) = big_size).
  { unfold big_content. rewrite List.repeat_length. apply Z2Nat.id.
    unfold big_size. lia. }
  apply (@session_cursors_track_offsets nat serving big_host 37 report
           (lit "/Reports/report.md") big_size true big_size big_content fresh connected
           {| session_id := lit "sid" |} 2%nat).
  - reflexivity.
  - unfold CHUNK_SIZE, big_size. lia.
  - exact Hlen.
  - exact serving_accepts_sessions.
  - reflexivity.
  - vm_compute. apply le_n.
  - reflexivity.
Defined.

Lemma large_path_on_small_file_witness :
  _upload_large_file serving report_host 0 report (lit "/Reports/report.md") 3 true
    fresh =
  Raise (UploadError (lit "Unexpected end of file during chunked upload"))
    {| self := self connected; world := 2%nat;
       log := log connected ++ [Called (SessionStart report_content)] |}.
Proof.
  apply (@large_path_on_small_file nat serving report_host 0 report
           (lit "/Reports/report.md") 3 true 3 report_content fresh connected
           {| session_id := lit "sid" |} 2%nat).
  - reflexivity.
  - reflexivity.
  - unfold CHUNK_SIZE. lia.
  - reflexivity.
  - reflexivity.
Defined.

Lemma truncated_file_witness :
  exists st',
    _upload_large_file serving report_host 7 report (lit "/Reports/report.md")
      (CHUNK_SIZE + 4) true fresh = OutOfFuel st'.
Proof.
  apply (@truncated_file_never_finishes nat serving report_host 7 report
           (lit "/Reports/report.md") (CHUNK_SIZE + 4) true 3 report_content fresh
           connected).
  - reflexivity.
  - cbn [report_content List.length]. lia.
  - exact serving_accepts_sessions.
  - reflexivity.
Defined.

Lemma small_file_first_attempt_witness :
  upload serving report_host 0 report reports None false fresh =
  Ret (lit "/Reports/report.md")
    {| self := with_client token_uploader (Some (Dropbox_token (lit "token")));
       world := 2%nat;
       log := [Attempt 1; Called GetCurrentAccount;
               Called (FilesUpload report_content (lit "/Reports/report.md") add_mode)] |}.
Proof.
  apply (@small_file_first_attempt nat serving report_host 0 report reports None false
           3 report_content fresh
           {| self := with_client token_uploader (Some (Dropbox_token (lit "token")));
              world := 1%nat; log := [Attempt 1; Called GetCurrentAccount] |}
           {| path_display := lit "/Reports/report.md" |} 2%nat).
  - reflexivity.
  - lia.
  - reflexivity.
  - reflexivity.
Defined.

Lemma closes_always : closes_quietly closes.
Proof. intros w. exists w. reflexivity. Qed.

Lemma upload_file_witness :
  exists st'',
    upload_file serving closes report_host token_environ 0 report reports None None
      true fresh = Ret (lit "/Reports/report.md") st'' /\
    log st'' =
      [Attempt 1; Called GetCurrentAccount;
       Called (FilesUpload report_content (lit "/Reports/report.md") overwrite_mode)] /\
    _client (self st'') = None.
Proof.
  pose proof (@upload_file_releases_the_client nat serving closes report_host
                token_environ 0 report reports None None true fresh closes_always) as H.
  lazy in H. destruct H as [st'' [Hrun [Hlog [Hnone _]]]].
  exists st''. repeat split; assumption.
Defined.

Lemma batch_witness :
  exists st',
    upload_multiple_files serving closes report_host token_environ 0
      [lit "/nope"; report] reports fresh =
    Ret [NotUploaded (lit "/nope") (lit "File not found: /nope");
         Uploaded report (lit "/Reports/report.md")] st' /\
    (exists st1,
       outcomes serving report_host 0 reports (construct token_environ None fresh)
         [lit "/nope"; report]
         [NotUploaded (lit "/nope") (lit "File not found: /nope");
          Uploaded report (lit "/Reports/report.md")] st1 /\
       log st' = log st1) /\
    _client (self st') = None /\
    exists evs, log st' = log fresh ++ evs /\ (identity_checks evs <= 1)%nat.
Proof.
  pose proof (@batch_shares_one_connection nat serving closes report_host token_environ
                0 [lit "/nope"; report] reports fresh closes_always) as H.
  destruct (upload_multiple_files serving closes report_host token_environ 0
              [lit "/nope"; report] reports fresh) as [rs st' | e st' | st'] eqn:E.
  - lazy in E. injection E as Hrs Hst. subst rs.
    exists st'. split; [reflexivity | ].
    destruct H as [_ H]. exact H.
  - contradiction.
  - lazy in E. discriminate.
Defined.

Lemma main_exit_codes_witness :
  main serving closes report_host token_environ writable 0 missing_args fresh =
    Ret 1 fresh /\
  exists st',
    main serving closes report_host token_environ writable 0 report_args fresh =
    Ret 0 st'.
Proof.
  split.
  - apply (proj1 (@main_exit_codes nat serving closes report_host token_environ
                    writable 0 missing_args fresh)).
    reflexivity.
  - pose proof (proj2 (@main_exit_codes nat serving closes report_host token_environ
                         writable 0 report_args fresh)
                  eq_refl closes_always (fun _ _ => eq_refl)) as H.
    lazy in H. exact H.
Defined.

(* ===================================================================== *)
(** * Which path a run takes *)
(* ===================================================================== *)

Section EmitFacts.

Variable W : Type.
Variable backend : Backend W.
Variable host : Host.
Variable P : Event -> Prop.

Lemma emits_ret (A : Type) (a : A) : emits P (ret (W := W) a).
Proof.
  intros st. exists []. cbn. rewrite app_nil_r. split; [reflexivity | constructor].
Qed.

Lemma emits_raise (A : Type) (e : PyExn) : emits P (raise (W := W) (A := A) e).
Proof.
  intros st. exists []. cbn. rewrite app_nil_r. split; [reflexivity | constructor].
Qed.

Lemma emits_bind (A B : Type) (m : Eng W A) (k : A -> Eng W B) :
  emits P m -> (forall a, emits P (k a)) -> emits P (bind m k).
Proof.
  intros Hm Hk st. unfold bind.
  destruct (Hm st) as [evs [Hl Hp]].
  destruct (m st) as [a st' | e st' | st']; cbn [final_state] in *.
  - destruct (Hk a st') as [evs' [Hl' Hp']]. exists (evs ++ evs').
    rewrite Hl', Hl, app_assoc.
    split; [reflexivity | apply Forall_app; split; assumption].
  - exists evs. split; assumption.
  - exists evs. split; assumption.
Qed.

Lemma emits_try_except (A : Type) (m : Eng W A) (h : PyExn -> Eng W A) :
  emits P m -> (forall e, emits P (h e)) -> emits P (try_except m h).
Proof.
  intros Hm Hh st. unfold try_except.
  destruct (Hm st) as [evs [Hl Hp]].
  destruct (m st) as [a st' | e st' | st']; cbn [final_state] in *.
  - exists evs. split; assumption.
  - destruct (Hh e st') as [evs' [Hl' Hp']]. exists (evs ++ evs').
    rewrite Hl', Hl, app_assoc.
    split; [reflexivity | apply Forall_app; split; assumption].
  - exists evs. split; assumption.
Qed.

Lemma emits_emit (ev : Event) : P ev -> emits P (emit (W := W) ev).
Proof.
  intros H st. exists [ev]. split; [reflexivity | constructor; [exact H | constructor]].
Qed.

Lemma emits_call (A : Type) (c : Call) (op : W -> Reply A * W) :
  P (Called c) -> emits P (call c op).
Proof.
  intros H st. exists [Called c]. unfold call.
  destruct (op (world st)) as [[a | e] w];
    (split; [reflexivity | constructor; [exact H | constructor]]).
Qed.

Hypothesis identity_allowed : P (Called GetCurrentAccount).

Lemma emits_client : emits P (client backend).
Proof.
  assert (Hv : emits P (_verify_connection backend)).
  { unfold _verify_connection. apply emits_try_except.
    - apply emits_bind; [apply emits_call, identity_allowed | intros; apply emits_ret].
    - intros e. destruct e; apply emits_raise. }
  assert (Hnew : forall c, emits P (set_client c ;; _verify_connection backend)).
  { intros c. apply emits_bind; [ | intros; exact Hv].
    intros st. exists []. cbn. rewrite app_nil_r. split; [reflexivity | constructor]. }
  intros st. unfold client.
  destruct (_client (self st)).
  - exists []. cbn. rewrite app_nil_r. split; [reflexivity | constructor].
  - destruct (truthy (_refresh_token (self st))), (truthy (_app_key (self st))),
      (truthy (_app_secret (self st)));
      try apply Hnew;
      (destruct (truthy (py_or _ _));
       [apply Hnew
       | exists []; cbn; rewrite app_nil_r; split; [reflexivity | constructor]]).
Qed.

Lemma emits_open_rb (file_path : pystr) : emits P (open_rb (W := W) host file_path).
Proof.
  unfold open_rb.
  destruct (node host file_path); first [apply emits_ret | apply emits_raise].
Qed.

Lemma emits_small (file_path dropbox_path : pystr) (overwrite : bool) :
  (forall data path mode, P (Called (FilesUpload data path mode))) ->
  emits P (_upload_small_file backend host file_path dropbox_path overwrite).
Proof.
  intros Hu. unfold _upload_small_file.
  apply emits_bind; [apply emits_open_rb | intros f].
  apply emits_bind; [apply emits_client | intros _].
  destruct (read_all f). apply emits_call, Hu.
Qed.

Section Sessions.

Hypothesis start_allowed : forall data, P (Called (SessionStart data)).
Hypothesis append_allowed : forall data cursor, P (Called (SessionAppend data cursor)).
Hypothesis finish_allowed :
  forall data cursor commit, P (Called (SessionFinish data cursor commit)).

Lemma emits_chunks (fuel : nat) :
  forall f cursor commit file_size,
    emits P (upload_chunks backend fuel f cursor commit file_size).
Proof.
  induction fuel as [|fuel IH]; intros f cursor commit file_size;
    cbn [upload_chunks]; destruct (tell f <? file_size);
    try apply emits_ret.
  - intros st. exists []. cbn. rewrite app_nil_r. split; [reflexivity | constructor].
  - destruct (file_size - tell f <=? CHUNK_SIZE).
    + apply emits_bind; [apply emits_client | intros _].
      destruct (read _ f).
      apply emits_bind; [apply emits_call, finish_allowed | intros; apply emits_ret].
    + apply emits_bind; [apply emits_client | intros _].
      destruct (read CHUNK_SIZE f).
      apply emits_bind; [apply emits_call, append_allowed | intros _]. apply IH.
Qed.

Lemma emits_large (fuel : nat) (file_path dropbox_path : pystr)
    (file_size : Z) (overwrite : bool) :
  emits P (_upload_large_file backend host fuel file_path dropbox_path
             file_size overwrite).
Proof.
  unfold _upload_large_file.
  apply emits_bind; [apply emits_open_rb | intros f].
  apply emits_bind; [apply emits_client | intros _].
  destruct (read CHUNK_SIZE f).
  apply emits_bind; [apply emits_call, start_allowed | intros s].
  apply emits_bind; [apply emits_chunks | intros [md | ]];
    [apply emits_ret | apply emits_raise].
Qed.

End Sessions.

Hypothesis attempt_allowed : forall attempt, P (Attempt attempt).
Hypothesis sleep_allowed : forall seconds, P (Slept seconds).

Lemma emits_handler (dropbox_path : pystr) (overwrite : bool) (attempt : Z)
    (e : PyExn) :
  emits P (on_failure (W := W) host dropbox_path overwrite attempt e).
Proof.
  assert (Hs : emits P (sleep (W := W) RETRY_DELAY ;; ret e)).
  { apply emits_bind; [apply emits_emit, sleep_allowed | intros; apply emits_ret]. }
  destruct e; cbn [on_failure];
    repeat match goal with
           | |- context [if ?b then _ else _] => destruct b
           end;
    first [exact Hs | apply emits_ret | apply emits_raise].
Qed.

(** The retry loop adds what its iterations add, an [Attempt] for each
    and the sleeps of the [except] clauses. *)
Lemma emits_loop (fuel : nat) (file_path dropbox_path : pystr) (file_size : Z)
    (overwrite : bool) :
  emits P (attempt_body backend host fuel file_path dropbox_path file_size overwrite) ->
  forall attempts last_error,
    emits P (retry_loop backend host fuel file_path dropbox_path file_size overwrite
               attempts last_error).
Proof.
  intros Hb attempts.
  induction attempts as [|a rest IH]; intros last_error; cbn [retry_loop].
  - apply emits_raise.
  - apply emits_bind; [apply emits_emit, attempt_allowed | intros _].
    apply emits_bind.
    + apply emits_try_except.
      * apply emits_bind; [exact Hb | intros; apply emits_ret].
      * intros e. apply emits_bind; [apply emits_handler | intros; apply emits_ret].
    + intros [p | last_error']; [apply emits_ret | apply IH].
Qed.

End EmitFacts.

Section Dispatch.

Variable W : Type.
Variable backend : Backend W.
Variable host : Host.
Variable fuel : nat.
Variables local_path dropbox_folder : pystr.
Variable filename : option pystr.
Variable overwrite : bool.

Local Notation "'file_path'" := (_resolve_local_path host local_path).
Local Notation "'dropbox_path'" :=
  (canonical_remote_path host dropbox_folder filename
     (_resolve_local_path host local_path)).
Local Notation "'file_size'" :=
  (stat_st_size (node host (_resolve_local_path host local_path))).
Local Notation "'body'" :=
  (attempt_body backend host fuel file_path dropbox_path file_size overwrite).
Local Notation "'loop'" :=
  (retry_loop backend host fuel file_path dropbox_path file_size overwrite).
Local Notation "'run'" :=
  (upload backend host fuel local_path dropbox_folder filename overwrite).
Local Notation "'begins'" :=
  (begins backend host fuel local_path dropbox_folder filename overwrite).

(** Whatever follows the [try] body of an iteration only extends the log
    that the body left. *)
Lemma loop_extends_body (attempt : Z) (rest : list Z) (last_error : option PyExn)
    (st : State W) :
  exists evs,
    log (final_state (loop (attempt :: rest) last_error st)) =
    log (final_state (body (log_event (Attempt attempt) st))) ++ evs.
Proof.
  cbn [retry_loop]. unfold bind at 1. unfold emit.
  unfold bind, try_except.
  destruct (attempt_body _ _ _ _ _ _ _ _) as [p st' | e st' | st'];
    cbn [final_state ret].
  - exists []. rewrite app_nil_r. reflexivity.
  - destruct (handler_cases host dropbox_path overwrite attempt e st')
      as [H | [H | [e' H]]]; rewrite H; cbn [ret final_state].
    + destruct (loop_events backend host fuel file_path dropbox_path file_size
                  overwrite rest (Some e) st') as [evs [Hl _]].
      exists evs. exact Hl.
    + destruct (loop_events backend host fuel file_path dropbox_path file_size
                  overwrite rest (Some e) (log_event (Slept RETRY_DELAY) st'))
        as [evs [Hl _]].
      exists (Slept RETRY_DELAY :: evs). rewrite Hl. cbn [log log_event].
      rewrite <- app_assoc. reflexivity.
    + exists []. rewrite app_nil_r. reflexivity.
  - exists []. rewrite app_nil_r. reflexivity.
Qed.

(** The first call of the small-file path, once the client is there: the
    whole content of the file. *)
Lemma small_file_first_call (file dropbox : pystr) (st_size : Z) (content : bytes)
    (st st1 : State W) :
  node host file = RegularFile st_size content ->
  client backend st = Ret tt st1 ->
  log (final_state (_upload_small_file backend host file dropbox overwrite st)) =
  log st1 ++ [Called (FilesUpload content dropbox (write_mode overwrite))].
Proof.
  intros Hn Hc. unfold _upload_small_file, open_rb. rewrite Hn.
  unfold bind, ret. rewrite Hc. cbn [read_all unread]. unfold call.
  destruct (files_upload backend content dropbox (write_mode overwrite) (world st1))
    as [[md | e] w]; reflexivity.
Qed.

(** The first call of the large-file path, once the client is there: the
    start of a session with the first chunk of the file. *)
Lemma large_file_first_call (file dropbox : pystr) (s st_size : Z) (content : bytes)
    (st st1 : State W) :
  node host file = RegularFile st_size content ->
  client backend st = Ret tt st1 ->
  exists evs,
    log (final_state (_upload_large_file backend host fuel file dropbox s overwrite st)) =
    log st1 ++
    Called (SessionStart (List.firstn (Z.to_nat CHUNK_SIZE) content)) :: evs.
Proof.
  intros Hn Hc. unfold _upload_large_file, open_rb. rewrite Hn.
  unfold bind at 1. unfold ret at 1. unfold bind at 1. rewrite Hc.
  cbn [read unread tell].
  set (data := List.firstn (Z.to_nat CHUNK_SIZE) content).
  unfold bind at 1. unfold call.
  destruct (files_upload_session_start backend data (world st1)) as [[r | e] w].
  - match goal with
    | |- context [final_state (bind ?m ?k ?s)] =>
        assert (Ha : adds_calls (bind m k))
    end.
    { apply adds_calls_bind; [apply adds_calls_chunks | intros [md | ]];
        [apply adds_calls_ret | apply adds_calls_raise]. }
    match goal with
    | |- context [final_state (bind ?m ?k ?s)] => destruct (Ha s) as [cs Hcs]
    end.
    exists (List.map Called cs). rewrite Hcs. cbn [log].
    rewrite <- app_assoc. reflexivity.
  - exists []. reflexivity.
Qed.

(** C5. [upload] dispatches on the size that [stat] reports for the file
    of the request.  For a size of at most 157,286,400 bytes (150 MiB)
    the run makes no session call, and every iteration whose client is
    there sends the whole file in one [files_upload] call; for a larger
    size the run makes no [files_upload] call, and every iteration whose
    client is there starts a session with the first chunk. *)
Theorem upload_dispatches_on_file_size (st0 : State W) (st_size : Z)
    (content : bytes) :
  node host file_path = RegularFile st_size content ->
  (st_size <= 157286400 ->
   (exists evs,
      log (final_state (run st0)) = log st0 ++ evs /\
      Forall (fun ev => is_session_call ev = false) evs) /\
   (forall attempt last_error st st1,
      begins st0 attempt last_error st ->
      attempt <= MAX_RETRIES ->
      client backend (log_event (Attempt attempt) st) = Ret tt st1 ->
      exists evs,
        log (final_state (run st0)) =
        log st1 ++
        Called (FilesUpload content dropbox_path
                  (if overwrite then overwrite_mode else add_mode)) :: evs)) /\
  (st_size > 157286400 ->
   (exists evs,
      log (final_state (run st0)) = log st0 ++ evs /\
      Forall (fun ev => is_whole_file_call ev = false) evs) /\
   (forall attempt last_error st st1,
      begins st0 attempt last_error st ->
      attempt <= MAX_RETRIES ->
      client backend (log_event (Attempt attempt) st) = Ret tt st1 ->
      exists evs,
        log (final_state (run st0)) =
        log st1 ++
        Called (SessionStart (List.firstn (Z.to_nat CHUNK_SIZE) content)) :: evs)).
Proof.
  intros Hn.
  assert (Hf : path_is_file (node host file_path) = true) by (rewrite Hn; reflexivity).
  assert (Hs : file_size = st_size) by (rewrite Hn; reflexivity).
  assert (Hiter : forall attempt last_error st,
             begins st0 attempt last_error st ->
             attempt <= MAX_RETRIES ->
             exists evs,
               log (final_state (run st0)) =
               log (final_state (body (log_event (Attempt attempt) st))) ++ evs).
  { intros attempt last_error st Hb Ha.
    rewrite (upload_runs_loop backend host fuel local_path dropbox_folder filename
               overwrite st0 Hf).
    rewrite (begins_run Hb), (@range_cons attempt (MAX_RETRIES + 1)) by lia.
    apply loop_extends_body. }
  split; intros Hsize.
  - assert (Hc : choose_strategy file_size = SmallFile).
    { rewrite Hs. unfold choose_strategy.
      change (150 * 1024 * 1024) with 157286400.
      destruct (Z.leb_spec st_size 157286400); [reflexivity | lia]. }
    split.
    + rewrite (upload_runs_loop backend host fuel local_path dropbox_folder filename
                 overwrite st0 Hf).
      apply emits_loop; try (intros; reflexivity).
      unfold attempt_body. rewrite Hc.
      apply emits_bind; [ | intros; apply emits_ret].
      apply emits_small; [reflexivity | intros; reflexivity].
    + intros attempt last_error st st1 Hb Ha Hcl.
      destruct (Hiter attempt last_error st Hb Ha) as [evs He].
      exists evs. rewrite He. unfold attempt_body at 1. rewrite Hc.
      unfold bind at 1.
      pose proof (@small_file_first_call file_path dropbox_path st_size content
                    (log_event (Attempt attempt) st) st1 Hn Hcl) as Hfirst.
      unfold write_mode in Hfirst.
      destruct (_upload_small_file _ _ _ _ _ _) as [md st' | e st' | st'];
        cbn [final_state ret] in *; rewrite Hfirst, <- app_assoc; reflexivity.
  - assert (Hc : choose_strategy file_size = LargeFile).
    { rewrite Hs. unfold choose_strategy.
      change (150 * 1024 * 1024) with 157286400.
      destruct (Z.leb_spec st_size 157286400); [lia | reflexivity]. }
    split.
    + rewrite (upload_runs_loop backend host fuel local_path dropbox_folder filename
                 overwrite st0 Hf).
      apply emits_loop; try (intros; reflexivity).
      unfold attempt_body. rewrite Hc.
      apply emits_bind; [ | intros; apply emits_ret].
      apply emits_large; try reflexivity; intros; reflexivity.
    + intros attempt last_error st st1 Hb Ha Hcl.
      destruct (Hiter attempt last_error st Hb Ha) as [evs He].
      destruct (@large_file_first_call file_path dropbox_path file_size st_size content
                  (log_event (Attempt attempt) st) st1 Hn Hcl) as [evs' Hfirst].
      exists (evs' ++ evs). rewrite He. unfold attempt_body at 1. rewrite Hc.
      unfold bind at 1.
      destruct (_upload_large_file _ _ _ _ _ _ _ _) as [md st' | e st' | st'];
        cbn [final_state ret] in *; rewrite Hfirst, <- app_assoc; reflexivity.
Qed.

End Dispatch.

Import Edge.

Lemma upload_dispatch_witness :
  (exists evs,
     log (final_state (upload serving edge_host 0 report reports None true fresh)) =
     [Attempt 1; Called GetCurrentAccount] ++
     Called (FilesUpload edge_content (lit "/Reports/report.md") overwrite_mode) :: evs) /\
  (exists evs,
     log (final_state (upload serving big_host 0 report reports None true fresh)) =
     [Attempt 1; Called GetCurrentAccount] ++
     Called (SessionStart (List.firstn (Z.to_nat CHUNK_SIZE) big_content)) :: evs).
Proof.
  split.
  - pose proof (@upload_dispatches_on_file_size nat serving edge_host 0 report reports
                  None true fresh edge_size edge_content eq_refl) as [H _].
    assert (Hs : edge_size <= 157286400) by (unfold edge_size; lia).
    destruct (H Hs) as [_ Hfirst].
    refine (Hfirst 1 None fresh
              {| self := with_client token_uploader (Some (Dropbox_token (lit "token")));
                 world := 1%nat;
                 log := [Attempt 1; Called GetCurrentAccount] |}
              (begins_first _ _ _ _ _ _ _ _) _ eq_refl).
    unfold MAX_RETRIES. lia.
  - pose proof (@upload_dispatches_on_file_size nat serving big_host 0 report reports
                  None true fresh big_size big_content eq_refl) as [_ H].
    assert (Hs : big_size > 157286400) by (unfold big_size; lia).
    destruct (H Hs) as [_ Hfirst].
    refine (Hfirst 1 None fresh
              {| self := with_client token_uploader (Some (Dropbox_token (lit "token")));
                 world := 1%nat;
                 log := [Attempt 1; Called GetCurrentAccount] |}
              (begins_first _ _ _ _ _ _ _ _) _ eq_refl).
    unfold MAX_RETRIES. lia.
Defined.
